(** * boost/serialization/singleton.hpp (Boost 1.64): a shallow embedding

    The header turns a class [T] into a lazily constructed, per-load-unit
    unique instance.  It comes in two designs, chosen by the preprocessor:

    - the default design ([#else] branch): [singleton_module] (the global
      lock gate), [detail::singleton_wrapper<T>] (the destruction flag) and
      [singleton<T>] (the accessors);
    - the [USE_UNM_SINGLETON] design: [singleton<T, threadsafe>] with a
      mutex and an [initialized] flag, and its [singleton<T, false>]
      specialisation.

    All the state of the header is static storage.  It is made explicit here
    as a record, and every member function becomes a computation in a small
    state-and-halt monad. *)

From stdpp Require Import gmap list.

(** ** Types, builds and outcomes *)

(** A template argument [T].  Each distinct [T] instantiates its own statics. *)
Abbreviation tid := positive.

(** An object is identified by the rank of its construction in the load
    unit: two references are identical exactly when they carry the same
    rank. *)
Abbreviation ref := nat.

(** [BOOST_ASSERT] is compiled in ([Checked]) or compiled out ([Unchecked],
    i.e. [NDEBUG]). *)
Inductive build := Checked | Unchecked.

(** A call either returns a value and the new static state, or halts the
    program for a reason of type [E], in the state reached so far. *)
Inductive result (E S A : Type) :=
| Ok (a : A) (s : S)
| Halt (why : E) (s : S).
Arguments Ok {E S A} a s.
Arguments Halt {E S A} why s.

Definition M (E S A : Type) : Type := S -> result E S A.

Definition ret {E S A} (a : A) : M E S A := fun s => Ok a s.

Definition bind {E S A B} (m : M E S A) (k : A -> M E S B) : M E S B :=
  fun s => match m s with
           | Ok a s' => k a s'
           | Halt why s' => Halt why s'
           end.

Definition gets {E S A} (f : S -> A) : M E S A := fun s => Ok (f s) s.
Definition modify {E S} (f : S -> S) : M E S unit := fun s => Ok tt (f s).
Definition halt {E S A} (why : E) : M E S A := fun s => Halt why s.

Notation "x <- m ;; k" := (bind m (fun x => k))
  (at level 100, m at next level, right associativity).
Notation "m ;;; k" := (bind m (fun _ => k))
  (at level 100, right associativity).

(** The state a call leaves behind, whether it returned or halted. *)
Definition final {E S A} (r : result E S A) : S :=
  match r with Ok _ s => s | Halt _ s => s end.

Definition returned {E S A} (r : result E S A) : option A :=
  match r with Ok a _ => Some a | Halt _ _ => None end.

(** The same outcome, with the state it carries changed by [f]. *)
Definition on_final {E S A} (f : S -> S) (r : result E S A) : result E S A :=
  match r with Ok a s => Ok a (f s) | Halt why s => Halt why (f s) end.

(** ** The default design *)

Module Default.

(** The two assertions of the header, named by the expression they test. *)
Inductive assertion :=
| not_locked      (* BOOST_ASSERT(! is_locked())                                *)
| not_destroyed.  (* BOOST_ASSERT(! detail::singleton_wrapper<T>::m_is_destroyed) *)

Section WithValues.

(** The values of the wrapped classes, and the default constructor of each
    class. *)
Context {V : Type} (construct : tid -> V).

(** An object with static storage duration: its class, its current value and
    whether its lifetime is still running. *)
Record object := Object {
  o_type : tid;
  o_val : V;
  o_alive : bool
}.

Record state := State {
  (** the boolean behind [singleton_module::get_lock()] *)
  lock_flag : bool;
  (** [detail::singleton_wrapper<T>::m_is_destroyed], one per [T];
      a missing entry is the static initialiser [= false] *)
  m_is_destroyed : gmap tid bool;
  (** [static detail::singleton_wrapper<T> t] of [singleton<T>::get_instance]:
      bound once control has passed through the declaration *)
  t : gmap tid ref;
  (** [singleton<T>::instance], bound by its dynamic initialiser *)
  instance : gmap tid ref;
  (** every object constructed so far, in construction order *)
  objects : list object
}.

Definition with_lock_flag (b : bool) (s : state) : state :=
  State b (m_is_destroyed s) (t s) (instance s) (objects s).
Definition with_m_is_destroyed (m : gmap tid bool) (s : state) : state :=
  State (lock_flag s) m (t s) (instance s) (objects s).
Definition with_t (m : gmap tid ref) (s : state) : state :=
  State (lock_flag s) (m_is_destroyed s) m (instance s) (objects s).
Definition with_instance (m : gmap tid ref) (s : state) : state :=
  State (lock_flag s) (m_is_destroyed s) (t s) m (objects s).
Definition with_objects (l : list object) (s : state) : state :=
  State (lock_flag s) (m_is_destroyed s) (t s) (instance s) l.

(** Modelled from the spec: the boolean behind [singleton_module::get_lock()]
    is defined in a translation unit that is not part of the sources; the
    spec gives it the default [false].  The other statics start as the
    header says: every flag [false], no [t] and no [instance] bound, nothing
    constructed. *)
Definition init : state := State false ∅ ∅ ∅ [].

Abbreviation Md := (M assertion state).

(** Modelled from the spec: [BOOST_ASSERT] comes from boost/assert.hpp, which
    is not part of the sources; in a checked build a false condition is a
    fatal stop, in an unchecked build the macro expands to nothing. *)
Definition BOOST_ASSERT (b : build) (which : assertion) (cond : bool) : Md unit :=
  match b with
  | Checked => if cond then ret tt else halt which
  | Unchecked => ret tt
  end.

(** *** singleton_module *)

(** Modelled from the spec: [get_lock()] is declared in the header and
    defined outside the sources; by the spec it returns a reference to the
    one process-wide gate boolean.  [get_lock] reads through that reference
    and [assign_get_lock] assigns through it. *)
Definition get_lock : Md bool := gets lock_flag.
Definition assign_get_lock (v : bool) : Md unit := modify (with_lock_flag v).

Definition lock : Md unit := assign_get_lock true.
Definition unlock : Md unit := assign_get_lock false.
Definition is_locked : Md bool := get_lock.

(** *** detail::singleton_wrapper<T> *)

Definition read_m_is_destroyed (T : tid) : Md bool :=
  gets (fun s => default false (m_is_destroyed s !! T)).

(** [~singleton_wrapper(){ m_is_destroyed = true; }] *)
Definition dtor_singleton_wrapper (T : tid) : Md unit :=
  modify (fun s => with_m_is_destroyed (<[T := true]> (m_is_destroyed s)) s).

(** *** singleton<T> *)

(** [static detail::singleton_wrapper< T > t;] the first pass constructs the
    wrapper (the constructor of [T] runs), later passes find it. *)
Definition static_t (T : tid) : Md ref :=
  fun s => match t s !! T with
           | Some r => Ok r s
           | None =>
               let r := length (objects s) in
               Ok r (with_t (<[T := r]> (t s))
                       (with_objects (objects s ++ [Object T (construct T) true]) s))
           end.

(** [use] takes a pointer to [T const] and has an empty body. *)
Definition use (p : option ref) : Md unit := ret tt.

Definition get_instance (b : build) (T : tid) : Md ref :=
  r <- static_t T ;;
  d <- read_m_is_destroyed T ;;
  BOOST_ASSERT b not_destroyed (negb d) ;;;
  i <- gets (fun s => instance s !! T) ;;
  use i ;;;
  ret r.

Definition get_mutable_instance (b : build) (T : tid) : Md ref :=
  l <- is_locked ;;
  BOOST_ASSERT b not_locked (negb l) ;;;
  get_instance b T.

Definition get_const_instance (b : build) (T : tid) : Md ref :=
  get_instance b T.

Definition is_destroyed (T : tid) : Md bool :=
  read_m_is_destroyed T.

(** [T & singleton< T >::instance = singleton< T >::get_instance();] the
    dynamic initialiser of the static reference member. *)
Definition init_instance (b : build) (T : tid) : Md unit :=
  r <- get_instance b T ;;
  modify (fun s => with_instance (<[T := r]> (instance s)) s).

(** *** The environment of the header *)

(** The host ends the lifetime of a static at teardown: the destructor of
    the wrapper runs for a [t] that was constructed and is still alive, and
    never a second time. *)
Definition end_lifetime (o : object) : object := Object (o_type o) (o_val o) false.

Definition atexit_destroy (T : tid) : Md unit :=
  fun s => match t s !! T with
           | Some r =>
               match objects s !! r with
               | Some o =>
                   if o_alive o
                   then (dtor_singleton_wrapper T ;;;
                         modify (fun s => with_objects (alter end_lifetime r (objects s)) s)) s
                   else Ok tt s
               | None => Ok tt s
               end
           | None => Ok tt s
           end.

(** Teardown of the whole load unit: statics die in the reverse order of
    their construction. *)
Fixpoint destroy_each (Ts : list tid) : Md unit :=
  match Ts with
  | [] => ret tt
  | T :: Ts => atexit_destroy T ;;; destroy_each Ts
  end.

Definition teardown : Md unit :=
  Ts <- gets (fun s => reverse (o_type <$> objects s)) ;;
  destroy_each Ts.

(** A consumer reads and writes the wrapped value through a reference it
    was given. *)
Definition set_val (v : V) (o : object) : object := Object (o_type o) v (o_alive o).

Definition load (r : ref) : Md (option V) :=
  gets (fun s => o_val <$> objects s !! r).
Definition store (r : ref) (v : V) : Md unit :=
  modify (fun s => with_objects (alter (set_val v) r (objects s)) s).

(** *** Programs over the header *)

Inductive call :=
| c_lock
| c_unlock
| c_is_locked
| c_get_mutable_instance (T : tid)
| c_get_const_instance (T : tid)
| c_is_destroyed (T : tid)
| c_init_instance (T : tid)
| c_atexit_destroy (T : tid)
| c_teardown
| c_load (r : ref)
| c_store (r : ref) (v : V).

Inductive answer :=
| a_void
| a_bool (b : bool)
| a_ref (r : ref)
| a_val (v : option V).

Definition run_call (b : build) (c : call) : Md answer :=
  match c with
  | c_lock => lock ;;; ret a_void
  | c_unlock => unlock ;;; ret a_void
  | c_is_locked => l <- is_locked ;; ret (a_bool l)
  | c_get_mutable_instance T => r <- get_mutable_instance b T ;; ret (a_ref r)
  | c_get_const_instance T => r <- get_const_instance b T ;; ret (a_ref r)
  | c_is_destroyed T => d <- is_destroyed T ;; ret (a_bool d)
  | c_init_instance T => init_instance b T ;;; ret a_void
  | c_atexit_destroy T => atexit_destroy T ;;; ret a_void
  | c_teardown => teardown ;;; ret a_void
  | c_load r => v <- load r ;; ret (a_val v)
  | c_store r v => store r v ;;; ret a_void
  end.

Fixpoint run (b : build) (cs : list call) : Md (list answer) :=
  match cs with
  | [] => ret []
  | c :: cs => a <- run_call b c ;; rest <- run b cs ;; ret (a :: rest)
  end.

(** The states a program can reach from load time without stopping. *)
Definition reachable (b : build) (s : state) : Prop :=
  exists cs answers, run b cs init = Ok answers s.

(** *** Observations *)

(** How many times the constructor of [T] has run. *)
Definition constructions (T : tid) (s : state) : nat :=
  length (filter (T =.) (o_type <$> objects s)).

(** Control has passed through the declaration of [t] in
    [singleton<T>::get_instance]. *)
Definition constructed (T : tid) (s : state) : bool :=
  bool_decide (is_Some (t s !! T)).

(** The destructor of the wrapper of [T] has run. *)
Definition torn_down (T : tid) (s : state) : bool :=
  match t s !! T with
  | Some r => match objects s !! r with
              | Some o => negb (o_alive o)
              | None => false
              end
  | None => false
  end.

Definition flag (T : tid) (s : state) : bool :=
  default false (m_is_destroyed s !! T).

(** The state after the declaration of [t] has been passed. *)
Definition after_static_t (T : tid) (s : state) : state := final (static_t T s).

(** The invariant of the statics. *)
Record wf (s : state) : Prop := {
  (** a bound [t] denotes an object of its class *)
  wf_t : forall T r, t s !! T = Some r -> o_type <$> objects s !! r = Some T;
  (** one constructor run per bound [t], none otherwise *)
  wf_count : forall T, constructions T s = if constructed T s then 1 else 0;
  (** the flag of [T] is set exactly when the destructor of its wrapper ran *)
  wf_flag : forall T, flag T s = torn_down T s;
  (** [instance] is bound to the object of [t] *)
  wf_instance : forall T r, instance s !! T = Some r -> t s !! T = Some r
}.

(** What no call ever undoes: a bound [t] stays bound to the same object,
    and a flag that is set stays set. *)
Record evolves (s s' : state) : Prop := {
  ev_t : forall T r, t s !! T = Some r -> t s' !! T = Some r;
  ev_flag : forall T, flag T s = true -> flag T s' = true
}.

(** The calls that enter [singleton<T>::get_instance]. *)
Definition touches (T : tid) (c : call) : bool :=
  match c with
  | c_get_mutable_instance T' | c_get_const_instance T' | c_init_instance T' =>
      bool_decide (T' = T)
  | _ => false
  end.

(** The calls in which the host may run the destructor of the wrapper of [T]. *)
Definition destroys (T : tid) (c : call) : bool :=
  match c with
  | c_atexit_destroy T' => bool_decide (T' = T)
  | c_teardown => true
  | _ => false
  end.

(** The part of the statics that belongs to the construction of [T]. *)
Definition construction_of (T : tid) (s : state) : option ref * nat :=
  (t s !! T, constructions T s).

(** The two public accessors. *)
Inductive access := mutable | const.

Definition accessor (a : access) (b : build) (T : tid) : Md ref :=
  match a with
  | mutable => get_mutable_instance b T
  | const => get_const_instance b T
  end.

(** The value a consumer finds behind the reference [r]. *)
Definition value_at (r : ref) (s : state) : option V := o_val <$> objects s !! r.

(** What a call makes of the gate [g], and what a list of calls makes of it. *)
Definition toggle (g : bool) (c : call) : bool :=
  match c with
  | c_lock => true
  | c_unlock => false
  | _ => g
  end.

Definition gate_after (cs : list call) (g : bool) : bool := fold_left toggle cs g.

(** The calls in which a consumer writes through the reference [r]. *)
Definition writes (r : ref) (c : call) : bool :=
  match c with
  | c_store r' _ => bool_decide (r' = r)
  | _ => false
  end.

End WithValues.
End Default.

(** ** The class of the spec's scenario *)

Module Counter.

Definition counter : tid := 1%positive.
Definition other : tid := 2%positive.

(** [Counter{ int n = 0; }]: every class starts at zero. *)
Definition construct (_ : tid) : Z := 0%Z.

(** Load, first const access, teardown of the wrapper of [counter]. *)
Definition after_destroy : @Default.state Z :=
  final (Default.run construct Checked
           [Default.c_get_const_instance counter; Default.c_atexit_destroy counter]
           Default.init).

(** Load, [other] touched at static initialisation, [counter] accessed and
    written, then teardown of the whole load unit. *)
Definition after_teardown : @Default.state Z :=
  final (Default.run construct Checked
           [Default.c_init_instance other;
            Default.c_get_mutable_instance counter;
            Default.c_store 1 3%Z;
            Default.c_teardown]
           Default.init).

End Counter.

(** ** The USE_UNM_SINGLETON design *)

Module Unm.

(** The header has no assertion in this design.  The one way a call can
    fail to return is [boost::mutex::lock] on a mutex that is held. *)
Inductive stop := blocked.

(** What a run does to the mutexes and when constructors run, oldest first. *)
Inductive event :=
| ev_mtx_lock (T : tid)
| ev_mtx_unlock (T : tid)
| ev_construct (T : tid).

Section WithValues.

Context {V : Type} (construct : tid -> V).

Record object := Object {
  o_type : tid;
  o_val : V;
  o_alive : bool
}.

Record state := State {
  (** [singleton<T, lock>::mtx]: held or free; a missing entry is free *)
  mtx : gmap tid bool;
  (** [singleton<T, lock>::initialized]; a missing entry is [= false] *)
  initialized : gmap tid bool;
  (** [static singleton_wrapper<T> t] of the primary template *)
  t : gmap tid ref;
  (** [static T t] of the specialisation [singleton<T, false>] *)
  t_false : gmap tid ref;
  objects : list object;
  events : list event
}.

Definition init : state := State ∅ ∅ ∅ ∅ [] [].

Abbreviation Mu := (M stop state).

Definition held (T : tid) (s : state) : bool := default false (mtx s !! T).
Definition is_initialized (T : tid) (s : state) : bool :=
  default false (initialized s !! T).

Definition emit (e : event) : Mu unit :=
  modify (fun s => State (mtx s) (initialized s) (t s) (t_false s) (objects s)
                         (events s ++ [e])).

Definition set_mtx (T : tid) (h : bool) : Mu unit :=
  modify (fun s => State (<[T := h]> (mtx s)) (initialized s) (t s) (t_false s)
                         (objects s) (events s)).

(** [mtx.lock()] and [mtx.unlock()] *)
Definition mtx_lock (T : tid) : Mu unit :=
  h <- gets (held T) ;;
  if h then halt blocked else (set_mtx T true ;;; emit (ev_mtx_lock T)).

Definition mtx_unlock (T : tid) : Mu unit :=
  set_mtx T false ;;; emit (ev_mtx_unlock T).

(** [initialized = true;] *)
Definition set_initialized (T : tid) : Mu unit :=
  modify (fun s => State (mtx s) (<[T := true]> (initialized s)) (t s) (t_false s)
                         (objects s) (events s)).

Definition new_object (T : tid) : Mu ref :=
  r <- gets (fun s => length (objects s)) ;;
  modify (fun s => State (mtx s) (initialized s) (t s) (t_false s)
                         (objects s ++ [Object T (construct T) true]) (events s)) ;;;
  emit (ev_construct T) ;;;
  ret r.

(** [static singleton_wrapper<T> t;] *)
Definition static_t (T : tid) : Mu ref :=
  b <- gets (fun s => t s !! T) ;;
  match b with
  | Some r => ret r
  | None =>
      r <- new_object T ;;
      modify (fun s => State (mtx s) (initialized s) (<[T := r]> (t s)) (t_false s)
                             (objects s) (events s)) ;;;
      ret r
  end.

(** [static T t;] of the specialisation *)
Definition static_t_false (T : tid) : Mu ref :=
  b <- gets (fun s => t_false s !! T) ;;
  match b with
  | Some r => ret r
  | None =>
      r <- new_object T ;;
      modify (fun s => State (mtx s) (initialized s) (t s) (<[T := r]> (t_false s))
                             (objects s) (events s)) ;;;
      ret r
  end.

(** The primary template [singleton<T, threadsafe>]. *)
Definition get_instance (threadsafe : bool) (T : tid) : Mu ref :=
  i <- gets (is_initialized T) ;;
  locked <- (if threadsafe && negb i then mtx_lock T ;;; ret true else ret false) ;;
  r <- static_t T ;;
  set_initialized T ;;;
  (if locked : bool then mtx_unlock T else ret tt) ;;;
  ret r.

Definition get_mutable_instance (threadsafe : bool) (T : tid) : Mu ref :=
  get_instance threadsafe T.

Definition get_const_instance (threadsafe : bool) (T : tid) : Mu ref :=
  get_instance threadsafe T.

(** The specialisation [singleton<T, false>]. *)
Definition get_instance_false (T : tid) : Mu ref := static_t_false T.
Definition get_mutable_instance_false (T : tid) : Mu ref := get_instance_false T.
Definition get_const_instance_false (T : tid) : Mu ref := get_instance_false T.

(** The host ends the lifetime of [t] at teardown; the wrapper of this
    design has no destructor body. *)
Definition end_lifetime (o : object) : object := Object (o_type o) (o_val o) false.

Definition atexit_destroy (T : tid) : Mu unit :=
  b <- gets (fun s => t s !! T) ;;
  match b with
  | Some r =>
      modify (fun s => State (mtx s) (initialized s) (t s) (t_false s)
                             (alter end_lifetime r (objects s)) (events s))
  | None => ret tt
  end.

Inductive call :=
| c_get_mutable_instance (T : tid)
| c_get_const_instance (T : tid)
| c_get_mutable_instance_false (T : tid)
| c_get_const_instance_false (T : tid)
| c_atexit_destroy (T : tid).

(** Every class [singleton<T>] of a program uses the default template
    argument [threadsafe = true]. *)
Definition run_call (c : call) : Mu (option ref) :=
  match c with
  | c_get_mutable_instance T => r <- get_mutable_instance true T ;; ret (Some r)
  | c_get_const_instance T => r <- get_const_instance true T ;; ret (Some r)
  | c_get_mutable_instance_false T => r <- get_mutable_instance_false T ;; ret (Some r)
  | c_get_const_instance_false T => r <- get_const_instance_false T ;; ret (Some r)
  | c_atexit_destroy T => atexit_destroy T ;;; ret None
  end.

Fixpoint run (cs : list call) : Mu (list (option ref)) :=
  match cs with
  | [] => ret []
  | c :: cs => a <- run_call c ;; rest <- run cs ;; ret (a :: rest)
  end.

(** The mutex events of a list of events. *)
Definition is_mtx_event (e : event) : bool :=
  match e with ev_construct _ => false | _ => true end.

Definition mtx_events (s : state) : list event := filter is_mtx_event (events s).

(** The states between two calls of a program: no mutex is held, and
    [initialized] is set exactly for the classes whose [t] is bound. *)
Record quiet (s : state) : Prop := {
  q_free : forall T, held T s = false;
  q_init : forall T, is_initialized T s = true <-> is_Some (t s !! T)
}.

(** The events on the mutex of [T]. *)
Definition on_mtx_of (T : tid) (e : event) : bool :=
  match e with
  | ev_mtx_lock T' | ev_mtx_unlock T' => bool_decide (T' = T)
  | ev_construct _ => false
  end.

Definition mtx_events_of (T : tid) (s : state) : list event :=
  filter (on_mtx_of T) (events s).

(** The mutex of a class has been taken and released once if the class is
    initialized, and never otherwise. *)
Definition traced (s : state) : Prop :=
  forall T, mtx_events_of T s =
            if is_initialized T s then [ev_mtx_lock T; ev_mtx_unlock T] else [].

(** The statics of the two templates denote objects of their class, and
    never the same object. *)
Record ranked (s : state) : Prop := {
  rk_t : forall T r, t s !! T = Some r -> o_type <$> objects s !! r = Some T;
  rk_false : forall T r, t_false s !! T = Some r -> o_type <$> objects s !! r = Some T;
  rk_apart : forall T T' r, t s !! T = Some r -> t_false s !! T' = Some r -> False
}.

End WithValues.
End Unm.

(** ** Properties of the default design *)

Module DefaultFacts.
Import Default.

Section WithValues.

Context {V : Type} (construct : tid -> V).

Abbreviation object := (@Default.object V).
Abbreviation state := (@Default.state V).
Abbreviation call := (@Default.call V).
Abbreviation answer := (@Default.answer V).
Abbreviation Md := (M assertion state).
Abbreviation init := (@Default.init V).
Abbreviation static_t := (Default.static_t construct).
Abbreviation after_static_t := (Default.after_static_t construct).
Abbreviation get_instance := (Default.get_instance construct).
Abbreviation get_mutable_instance := (Default.get_mutable_instance construct).
Abbreviation get_const_instance := (Default.get_const_instance construct).
Abbreviation init_instance := (Default.init_instance construct).
Abbreviation run_call := (Default.run_call construct).
Abbreviation run := (Default.run construct).
Abbreviation reachable := (Default.reachable construct).
Abbreviation accessor := (Default.accessor construct).

(** *** Lists of objects *)

Lemma types_alter (f : object -> object) (r : ref) (l : list object) :
  (forall o, o_type (f o) = o_type o) ->
  o_type <$> alter f r l = o_type <$> l.
Proof.
  intros Hf. revert r.
  induction l as [|o l IH]; intros [|r]; csimpl; rewrite ?Hf, ?IH; reflexivity.
Qed.

Lemma lookup_alter_type (f : object -> object) (r r' : ref) (l : list object) :
  (forall o, o_type (f o) = o_type o) ->
  o_type <$> alter f r l !! r' = o_type <$> l !! r'.
Proof.
  intros Hf. rewrite <- !list_lookup_fmap. now rewrite types_alter.
Qed.

Lemma count_snoc (T T' : tid) (l : list tid) :
  length (filter (T =.) (l ++ [T'])) =
  length (filter (T =.) l) + (if decide (T = T') then 1 else 0).
Proof.
  rewrite filter_app, length_app. f_equal.
  rewrite filter_cons. destruct (decide (T = T')); reflexivity.
Qed.

(** *** What each primitive does to the statics *)

Lemma lock_spec (s : state) : lock s = Ok tt (with_lock_flag true s).
Proof. reflexivity. Qed.

Lemma unlock_spec (s : state) : unlock s = Ok tt (with_lock_flag false s).
Proof. reflexivity. Qed.

Lemma is_locked_spec (s : state) : is_locked s = Ok (lock_flag s) s.
Proof. reflexivity. Qed.

Lemma is_destroyed_spec (T : tid) (s : state) : is_destroyed T s = Ok (flag T s) s.
Proof. reflexivity. Qed.

Lemma static_t_old (T : tid) (r : ref) (s : state) :
  t s !! T = Some r -> static_t T s = Ok r s.
Proof. unfold static_t. now intros ->. Qed.

Lemma static_t_new (T : tid) (s : state) :
  t s !! T = None ->
  static_t T s =
    Ok (length (objects s))
       (with_t (<[T := length (objects s)]> (t s))
          (with_objects (objects s ++ [Object T (construct T) true]) s)).
Proof. unfold static_t. now intros ->. Qed.

Lemma static_t_returns (T : tid) (s : state) :
  exists r, static_t T s = Ok r (after_static_t T s) /\ t (after_static_t T s) !! T = Some r.
Proof.
  unfold after_static_t.
  destruct (t s !! T) as [r|] eqn:E.
  - rewrite (static_t_old _ _ _ E). now exists r.
  - rewrite (static_t_new _ _ E). eexists. split; [reflexivity|].
    simpl. apply lookup_insert_eq.
Qed.

Lemma after_static_t_frame (T : tid) (s : state) :
  lock_flag (after_static_t T s) = lock_flag s /\
  m_is_destroyed (after_static_t T s) = m_is_destroyed s /\
  instance (after_static_t T s) = instance s.
Proof.
  unfold after_static_t, static_t. destruct (t s !! T); simpl; auto.
Qed.

(** [get_instance], with its control flow written out. *)
Lemma get_instance_spec (b : build) (T : tid) (s : state) :
  exists r, t (after_static_t T s) !! T = Some r /\
    get_instance b T s =
      match b with
      | Checked => if flag T s then Halt not_destroyed (after_static_t T s)
                   else Ok r (after_static_t T s)
      | Unchecked => Ok r (after_static_t T s)
      end.
Proof.
  destruct (static_t_returns T s) as (r & Hr & Ht).
  exists r. split; [exact Ht|].
  destruct (after_static_t_frame T s) as (_ & Hm & _).
  unfold get_instance, bind. rewrite Hr.
  unfold read_m_is_destroyed, gets. rewrite Hm. fold (flag T s).
  destruct b; simpl; [|reflexivity].
  destruct (flag T s); reflexivity.
Qed.

Lemma get_mutable_instance_spec (b : build) (T : tid) (s : state) :
  get_mutable_instance b T s =
    match b with
    | Checked => if lock_flag s then Halt not_locked s else get_instance b T s
    | Unchecked => get_instance b T s
    end.
Proof.
  unfold get_mutable_instance, bind, is_locked, get_lock, gets.
  destruct b; simpl; [|reflexivity].
  destruct (lock_flag s); reflexivity.
Qed.

(** *** The invariant of the statics *)

Lemma wf_t_inj (s : state) (T T' : tid) (r : ref) :
  wf s -> t s !! T = Some r -> t s !! T' = Some r -> T = T'.
Proof.
  intros W H H'. apply (wf_t _ W) in H. apply (wf_t _ W) in H'. congruence.
Qed.

Lemma wf_t_lt (s : state) (T : tid) (r : ref) :
  wf s -> t s !! T = Some r -> r < length (objects s).
Proof.
  intros W H. apply (wf_t _ W) in H.
  destruct (objects s !! r) eqn:E; [|discriminate].
  now apply lookup_lt_Some in E.
Qed.

Lemma wf_init : wf init.
Proof. split; intros; try reflexivity; simpl in *; now rewrite ?lookup_empty in *. Qed.

Lemma wf_with_lock_flag (g : bool) (s : state) : wf s -> wf (with_lock_flag g s).
Proof. intros [W1 W2 W3 W4]. split; assumption. Qed.

Lemma wf_after_static_t (T : tid) (s : state) : wf s -> wf (after_static_t T s).
Proof.
  intros W. unfold after_static_t, static_t.
  destruct (t s !! T) as [r|] eqn:E; simpl; [exact W|].
  split; simpl.
  - intros T' r'. rewrite lookup_insert. case_decide as D.
    + intros [= <-]. subst T'. now rewrite lookup_app_r, Nat.sub_diag by lia.
    + intros H. rewrite lookup_app_l by eauto using wf_t_lt. eauto using wf_t.
  - intros T'. unfold constructions, constructed. simpl.
    rewrite fmap_app. change (o_type <$> [Object T (construct T) true]) with [T].
    rewrite count_snoc. fold (constructions T' s).
    rewrite (wf_count _ W). unfold constructed.
    rewrite lookup_insert. simpl.
    destruct (decide (T' = T)) as [->|D].
    + rewrite decide_True by done. rewrite E.
      rewrite bool_decide_eq_false_2 by (intros [? ?]; discriminate).
      rewrite bool_decide_eq_true_2 by eauto. reflexivity.
    + rewrite decide_False by congruence.
      rewrite Nat.add_0_r. reflexivity.
  - intros T'. pose proof (wf_flag _ W T') as F.
    unfold flag, torn_down in *. simpl. rewrite F. clear F.
    rewrite lookup_insert. case_decide as D.
    + subst T'. rewrite E. now rewrite lookup_app_r, Nat.sub_diag by lia.
    + destruct (t s !! T') as [r'|] eqn:E'; [|reflexivity].
      now rewrite lookup_app_l by eauto using wf_t_lt.
  - intros T' r' H. apply (wf_instance _ W) in H.
    rewrite lookup_insert_ne; [exact H|congruence].
Qed.

Lemma wf_alter (f : object -> object) (r : ref) (s : state) :
  (forall o, o_type (f o) = o_type o) ->
  (forall o, o_alive (f o) = o_alive o) ->
  wf s -> wf (with_objects (alter f r (objects s)) s).
Proof.
  intros Hty Hal W. split; simpl.
  - intros T' r' H. rewrite lookup_alter_type by assumption. eauto using wf_t.
  - intros T'. unfold constructions, constructed. simpl.
    rewrite types_alter by assumption. apply (wf_count _ W).
  - intros T'. pose proof (wf_flag _ W T') as F.
    unfold flag, torn_down in *. simpl. rewrite F.
    destruct (t s !! T') as [r'|]; [|reflexivity].
    rewrite list_lookup_alter. case_decide as D; [subst r'|reflexivity].
    destruct (objects s !! r); simpl; [now rewrite Hal|reflexivity].
  - apply (wf_instance _ W).
Qed.

Lemma wf_store (r : ref) (v : V) (s : state) : wf s -> wf (final (store r v s)).
Proof. intros W. now apply wf_alter. Qed.

Lemma wf_atexit_destroy (T : tid) (s : state) : wf s -> wf (final (atexit_destroy T s)).
Proof.
  intros W. unfold atexit_destroy.
  destruct (t s !! T) as [r|] eqn:E; [|exact W].
  destruct (objects s !! r) as [o|] eqn:Eo; [|exact W].
  destruct (o_alive o) eqn:Ea; [|exact W].
  split; simpl.
  - intros T' r' H. rewrite lookup_alter_type by reflexivity. eauto using wf_t.
  - intros T'. unfold constructions, constructed. simpl.
    rewrite types_alter by reflexivity. apply (wf_count _ W).
  - intros T'. pose proof (wf_flag _ W T') as F.
    unfold flag, torn_down in *. simpl.
    rewrite lookup_insert. case_decide as D.
    + subst T'. rewrite E. rewrite list_lookup_alter, decide_True by reflexivity.
      now rewrite Eo.
    + rewrite F. destruct (t s !! T') as [r'|] eqn:E'; [|reflexivity].
      rewrite list_lookup_alter_ne; [reflexivity|].
      intros ->. apply D. eauto using wf_t_inj.
  - apply (wf_instance _ W).
Qed.

Lemma final_bind {A B : Type} (m : Md A) (k : A -> Md B) (s : state) :
  final (bind m k s) =
    match m s with
    | Ok a s' => final (k a s')
    | Halt _ s' => s'
    end.
Proof. unfold bind. destruct (m s); reflexivity. Qed.

Lemma final_then_ret {A B : Type} (m : Md A) (f : A -> B) (s : state) :
  final (bind m (fun a => ret (f a)) s) = final (m s).
Proof. unfold bind. destruct (m s); reflexivity. Qed.

Lemma wf_destroy_each (Ts : list tid) (s : state) :
  wf s -> wf (final (destroy_each Ts s)).
Proof.
  revert s. induction Ts as [|T Ts IH]; intros s W; cbn [destroy_each]; [exact W|].
  rewrite final_bind.
  pose proof (wf_atexit_destroy T s W) as W'.
  destruct (atexit_destroy T s); simpl in *; auto.
Qed.

Lemma get_instance_final (b : build) (T : tid) (s : state) :
  final (get_instance b T s) = after_static_t T s.
Proof.
  destruct (get_instance_spec b T s) as (r & _ & ->).
  destruct b; [destruct (flag T s)|]; reflexivity.
Qed.

Lemma wf_get_instance (b : build) (T : tid) (s : state) :
  wf s -> wf (final (get_instance b T s)).
Proof. rewrite get_instance_final. apply wf_after_static_t. Qed.

Lemma wf_get_mutable_instance (b : build) (T : tid) (s : state) :
  wf s -> wf (final (get_mutable_instance b T s)).
Proof.
  intros W. rewrite get_mutable_instance_spec.
  destruct b; [destruct (lock_flag s)|]; auto using wf_get_instance.
Qed.

Lemma wf_init_instance (b : build) (T : tid) (s : state) :
  wf s -> wf (final (init_instance b T s)).
Proof.
  intros W. unfold init_instance. rewrite final_bind.
  pose proof (wf_get_instance b T s W) as W'.
  destruct (get_instance_spec b T s) as (r & Ht & Hg).
  rewrite get_instance_final in W'.
  rewrite Hg. destruct b; [destruct (flag T s)|]; simpl; try exact W'.
  - destruct W' as [W1 W2 W3 W4]. split; try assumption; simpl.
    intros T' r'. rewrite lookup_insert. case_decide; [congruence|auto].
  - destruct W' as [W1 W2 W3 W4]. split; try assumption; simpl.
    intros T' r'. rewrite lookup_insert. case_decide; [congruence|auto].
Qed.

Lemma wf_run_call (b : build) (c : call) (s : state) :
  wf s -> wf (final (run_call b c s)).
Proof.
  intros W. destruct c; unfold run_call; rewrite final_bind.
  - now apply wf_with_lock_flag.
  - now apply wf_with_lock_flag.
  - exact W.
  - pose proof (wf_get_mutable_instance b T s W).
    now destruct (get_mutable_instance b T s).
  - pose proof (wf_get_instance b T s W).
    unfold get_const_instance. now destruct (get_instance b T s).
  - exact W.
  - pose proof (wf_init_instance b T s W).
    now destruct (init_instance b T s).
  - pose proof (wf_atexit_destroy T s W).
    now destruct (atexit_destroy T s).
  - pose proof (wf_destroy_each (reverse (o_type <$> objects s)) s W) as W'.
    unfold teardown, bind, gets.
    now destruct (destroy_each _ s).
  - exact W.
  - now apply wf_store.
Qed.

Lemma wf_run (b : build) (cs : list call) (s : state) :
  wf s -> wf (final (run b cs s)).
Proof.
  revert s. induction cs as [|c cs IH]; intros s W; cbn [run]; [exact W|].
  rewrite final_bind. pose proof (wf_run_call b c s W) as W'.
  destruct (run_call b c s) as [a s'|why s']; simpl in *; [|exact W'].
  rewrite final_bind. specialize (IH s' W').
  destruct (run b cs s'); exact IH.
Qed.

Lemma reachable_wf (b : build) (s : state) : reachable b s -> wf s.
Proof.
  intros (cs & answers & H).
  change s with (final (Ok (E := assertion) answers s)).
  rewrite <- H. apply wf_run, wf_init.
Qed.

(** *** How the statics evolve *)

Lemma evolves_refl (s : state) : evolves s s.
Proof. split; auto. Qed.

Lemma evolves_trans (s1 s2 s3 : state) :
  evolves s1 s2 -> evolves s2 s3 -> evolves s1 s3.
Proof. intros [A1 A2] [B1 B2]. split; auto. Qed.

Lemma evolves_after_static_t (T : tid) (s : state) : evolves s (after_static_t T s).
Proof.
  unfold after_static_t, static_t.
  destruct (t s !! T) as [r|] eqn:E; simpl; [apply evolves_refl|].
  split; simpl; [|auto].
  intros T' r' H. rewrite lookup_insert_ne; [exact H|congruence].
Qed.

Lemma evolves_atexit_destroy (T : tid) (s : state) :
  evolves s (final (atexit_destroy T s)).
Proof.
  unfold atexit_destroy.
  destruct (t s !! T) as [r|]; [|apply evolves_refl].
  destruct (objects s !! r) as [o|]; [|apply evolves_refl].
  destruct (o_alive o); [|apply evolves_refl].
  split; simpl; [auto|].
  intros T'. unfold flag. simpl. rewrite lookup_insert.
  case_decide; [reflexivity|auto].
Qed.

Lemma evolves_destroy_each (Ts : list tid) (s : state) :
  evolves s (final (destroy_each Ts s)).
Proof.
  revert s. induction Ts as [|T Ts IH]; intros s; cbn [destroy_each];
    [apply evolves_refl|].
  rewrite final_bind. pose proof (evolves_atexit_destroy T s) as H.
  destruct (atexit_destroy T s); simpl in *; eauto using evolves_trans.
Qed.

Lemma evolves_get_instance (b : build) (T : tid) (s : state) :
  evolves s (final (get_instance b T s)).
Proof. rewrite get_instance_final. apply evolves_after_static_t. Qed.

Lemma evolves_get_mutable_instance (b : build) (T : tid) (s : state) :
  evolves s (final (get_mutable_instance b T s)).
Proof.
  rewrite get_mutable_instance_spec.
  destruct b; [destruct (lock_flag s)|];
    auto using evolves_get_instance, evolves_refl.
Qed.

Lemma evolves_init_instance (b : build) (T : tid) (s : state) :
  evolves s (final (init_instance b T s)).
Proof.
  unfold init_instance. rewrite final_bind.
  pose proof (evolves_get_instance b T s) as H.
  destruct (get_instance b T s) as [r s'|why s']; simpl in *; [|exact H].
  destruct H as [H1 H2]. split; auto.
Qed.

Lemma evolves_run_call (b : build) (c : call) (s : state) :
  evolves s (final (run_call b c s)).
Proof.
  destruct c; unfold run_call; rewrite final_bind.
  - split; auto.
  - split; auto.
  - apply evolves_refl.
  - pose proof (evolves_get_mutable_instance b T s).
    now destruct (get_mutable_instance b T s).
  - pose proof (evolves_get_instance b T s).
    unfold get_const_instance. now destruct (get_instance b T s).
  - apply evolves_refl.
  - pose proof (evolves_init_instance b T s).
    now destruct (init_instance b T s).
  - pose proof (evolves_atexit_destroy T s).
    now destruct (atexit_destroy T s).
  - pose proof (evolves_destroy_each (reverse (o_type <$> objects s)) s).
    unfold teardown, bind, gets. now destruct (destroy_each _ s).
  - apply evolves_refl.
  - split; auto.
Qed.

Lemma evolves_run (b : build) (cs : list call) (s : state) :
  evolves s (final (run b cs s)).
Proof.
  revert s. induction cs as [|c cs IH]; intros s; cbn [run]; [apply evolves_refl|].
  rewrite final_bind. pose proof (evolves_run_call b c s) as H.
  destruct (run_call b c s) as [a s'|why s']; simpl in *; [|exact H].
  rewrite final_bind. specialize (IH s').
  destruct (run b cs s'); simpl in *; eauto using evolves_trans.
Qed.

(** *** What a call leaves alone *)

Lemma construction_after_static_t (T T' : tid) (s : state) :
  T' <> T -> construction_of T (after_static_t T' s) = construction_of T s.
Proof.
  intros D. unfold after_static_t, static_t.
  destruct (t s !! T') as [r|] eqn:E; simpl; [reflexivity|].
  unfold construction_of, constructions. simpl.
  rewrite lookup_insert_ne by exact D.
  rewrite fmap_app. change (o_type <$> [Object T' (construct T') true]) with [T'].
  rewrite count_snoc, decide_False by congruence.
  now rewrite Nat.add_0_r.
Qed.

Lemma construction_atexit_destroy (T T' : tid) (s : state) :
  construction_of T (final (atexit_destroy T' s)) = construction_of T s.
Proof.
  unfold atexit_destroy.
  destruct (t s !! T') as [r|]; [|reflexivity].
  destruct (objects s !! r) as [o|]; [|reflexivity].
  destruct (o_alive o); [|reflexivity].
  unfold construction_of, constructions. simpl.
  now rewrite types_alter by reflexivity.
Qed.

Lemma construction_destroy_each (T : tid) (Ts : list tid) (s : state) :
  construction_of T (final (destroy_each Ts s)) = construction_of T s.
Proof.
  revert s. induction Ts as [|T' Ts IH]; intros s; cbn [destroy_each]; [reflexivity|].
  rewrite final_bind. pose proof (construction_atexit_destroy T T' s) as H.
  destruct (atexit_destroy T' s) as [[] s'|why s']; simpl in *; [|exact H].
  now rewrite IH.
Qed.

Lemma construction_get_instance (b : build) (T T' : tid) (s : state) :
  T' <> T -> construction_of T (final (get_instance b T' s)) = construction_of T s.
Proof. rewrite get_instance_final. apply construction_after_static_t. Qed.

Lemma construction_get_mutable_instance (b : build) (T T' : tid) (s : state) :
  T' <> T -> construction_of T (final (get_mutable_instance b T' s)) = construction_of T s.
Proof.
  intros D. rewrite get_mutable_instance_spec.
  destruct b; [destruct (lock_flag s); [reflexivity|]|];
    now apply construction_get_instance.
Qed.

Lemma construction_init_instance (b : build) (T T' : tid) (s : state) :
  T' <> T -> construction_of T (final (init_instance b T' s)) = construction_of T s.
Proof.
  intros D. unfold init_instance. rewrite final_bind.
  pose proof (construction_get_instance b T T' s D) as G.
  now destruct (get_instance b T' s).
Qed.

Lemma construction_teardown (T : tid) (s : state) :
  construction_of T (final (teardown s)) = construction_of T s.
Proof. apply construction_destroy_each. Qed.

Lemma construction_frame (b : build) (T : tid) (c : call) (s : state) :
  touches T c = false ->
  construction_of T (final (run_call b c s)) = construction_of T s.
Proof.
  destruct c; unfold run_call, touches; rewrite final_then_ret; intros H;
    try apply bool_decide_eq_false_1 in H; try reflexivity.
  - now apply construction_get_mutable_instance.
  - now apply construction_get_instance.
  - now apply construction_init_instance.
  - apply construction_atexit_destroy.
  - apply construction_teardown.
  - unfold construction_of, constructions. simpl.
    now rewrite types_alter by reflexivity.
Qed.

Lemma flag_atexit_destroy (T T' : tid) (s : state) :
  T' <> T -> flag T (final (atexit_destroy T' s)) = flag T s.
Proof.
  intros D. unfold atexit_destroy.
  destruct (t s !! T') as [r|]; [|reflexivity].
  destruct (objects s !! r) as [o|]; [|reflexivity].
  destruct (o_alive o); [|reflexivity].
  unfold flag. simpl. now rewrite lookup_insert_ne by exact D.
Qed.

Lemma flag_get_instance (b : build) (T T' : tid) (s : state) :
  flag T (final (get_instance b T' s)) = flag T s.
Proof.
  rewrite get_instance_final. unfold flag.
  now destruct (after_static_t_frame T' s) as (_ & -> & _).
Qed.

Lemma flag_get_mutable_instance (b : build) (T T' : tid) (s : state) :
  flag T (final (get_mutable_instance b T' s)) = flag T s.
Proof.
  rewrite get_mutable_instance_spec.
  destruct b; [destruct (lock_flag s); [reflexivity|]|];
    apply flag_get_instance.
Qed.

Lemma flag_init_instance (b : build) (T T' : tid) (s : state) :
  flag T (final (init_instance b T' s)) = flag T s.
Proof.
  unfold init_instance. rewrite final_bind.
  pose proof (flag_get_instance b T T' s) as G.
  now destruct (get_instance b T' s).
Qed.

Lemma flag_frame (b : build) (T : tid) (c : call) (s : state) :
  destroys T c = false ->
  flag T (final (run_call b c s)) = flag T s.
Proof.
  destruct c; unfold run_call, destroys; rewrite final_then_ret; intros H;
    try apply bool_decide_eq_false_1 in H; try reflexivity; try discriminate.
  - apply flag_get_mutable_instance.
  - apply flag_get_instance.
  - apply flag_init_instance.
  - now apply flag_atexit_destroy.
Qed.

(** *** Runs *)

Lemma flag_frame_run (b : build) (T : tid) (cs : list call) (s : state) :
  forallb (fun c => negb (destroys T c)) cs = true ->
  flag T (final (run b cs s)) = flag T s.
Proof.
  revert s. induction cs as [|c cs IH]; intros s; cbn [run forallb]; [reflexivity|].
  rewrite andb_true_iff, negb_true_iff. intros [Hc Hcs].
  rewrite final_bind. pose proof (flag_frame b T c s Hc) as F.
  destruct (run_call b c s) as [a s'|why s']; simpl in *; [|exact F].
  rewrite final_then_ret, IH by exact Hcs. exact F.
Qed.

Lemma construction_frame_run (b : build) (T : tid) (cs : list call) (s : state) :
  forallb (fun c => negb (touches T c)) cs = true ->
  construction_of T (final (run b cs s)) = construction_of T s.
Proof.
  revert s. induction cs as [|c cs IH]; intros s; cbn [run forallb]; [reflexivity|].
  rewrite andb_true_iff, negb_true_iff. intros [Hc Hcs].
  rewrite final_bind. pose proof (construction_frame b T c s Hc) as F.
  destruct (run_call b c s) as [a s'|why s']; simpl in *; [|exact F].
  rewrite final_then_ret, IH by exact Hcs. exact F.
Qed.

Lemma run_ok_final {A : Type} (m : Md A) (s s' : state) (a : A) :
  m s = Ok a s' -> final (m s) = s'.
Proof. now intros ->. Qed.

(** *** The accessors return *)

Lemma get_instance_returns (b : build) (T : tid) (s : state) :
  (b = Checked -> flag T s = false) ->
  exists r, get_instance b T s = Ok r (after_static_t T s).
Proof.
  intros H. destruct (get_instance_spec b T s) as (r & _ & ->). exists r.
  destruct b; [now rewrite H|reflexivity].
Qed.

Lemma accessor_returns (a : access) (b : build) (T : tid) (s : state) :
  (b = Checked -> flag T s = false) ->
  (b = Checked -> a = mutable -> lock_flag s = false) ->
  exists r, accessor a b T s = Ok r (after_static_t T s).
Proof.
  intros Hf Hl. destruct a; unfold accessor; [|now apply get_instance_returns].
  rewrite get_mutable_instance_spec.
  destruct b; [rewrite Hl by reflexivity|]; now apply get_instance_returns.
Qed.

Lemma accessor_ok_t (a : access) (b : build) (T : tid) (s s' : state) (r : ref) :
  accessor a b T s = Ok r s' -> t s' !! T = Some r.
Proof.
  assert (G : get_instance b T s = Ok r s' -> t s' !! T = Some r).
  { destruct (get_instance_spec b T s) as (r0 & Ht & ->).
    destruct b; [destruct (flag T s)|]; intros [= <- <-]; exact Ht. }
  destruct a; unfold accessor; [|exact G].
  rewrite get_mutable_instance_spec.
  destruct b; [destruct (lock_flag s); [discriminate|]|]; exact G.
Qed.

Lemma touch_constructs (b : build) (T : tid) (c : call) (s s' : state) (a : answer) :
  touches T c = true -> run_call b c s = Ok a s' -> constructed T s' = true.
Proof.
  unfold constructed. intros Hc Hr. apply bool_decide_eq_true_2.
  destruct c; unfold touches in Hc; try discriminate;
    apply bool_decide_eq_true_1 in Hc; subst T0; unfold run_call, bind in Hr.
  - destruct (get_mutable_instance b T s) as [r s1|] eqn:E; [|discriminate].
    injection Hr as <- <-. exists r. exact (accessor_ok_t mutable b T s s1 r E).
  - destruct (get_const_instance b T s) as [r s1|] eqn:E; [|discriminate].
    injection Hr as <- <-. exists r. exact (accessor_ok_t const b T s s1 r E).
  - unfold init_instance, bind in Hr.
    destruct (get_instance b T s) as [r s1|] eqn:E; [|discriminate].
    injection Hr as <- <-. exists r. simpl.
    exact (accessor_ok_t const b T s s1 r E).
Qed.

Lemma torn_down_halts (T : tid) (s : state) :
  wf s -> flag T s = true ->
  after_static_t T s = s /\ get_instance Checked T s = Halt not_destroyed s.
Proof.
  intros W F.
  assert (A : after_static_t T s = s).
  { rewrite (wf_flag _ W) in F. unfold torn_down in F.
    unfold Default.after_static_t, Default.static_t.
    destruct (t s !! T); [reflexivity|discriminate]. }
  split; [exact A|].
  destruct (get_instance_spec Checked T s) as (r & _ & ->).
  now rewrite F, A.
Qed.

(** *** The gate *)

(** C6.  The gate starts unlocked.  [lock()] and [unlock()] always return
    and set the gate to locked and to unlocked; two [lock()] in a row leave
    what one leaves, and so do two [unlock()]; the gate can be toggled back
    and forth; [is_locked()] returns the gate and changes nothing; and the
    gate is one for all classes: after [lock()], the mutable accessor of
    every [T] hits the assertion of a checked build. *)
Theorem gate_toggles (T : tid) (s : state) :
  is_locked init = Ok false init /\
  lock s = Ok tt (with_lock_flag true s) /\
  unlock s = Ok tt (with_lock_flag false s) /\
  (lock ;;; lock) s = lock s /\
  (unlock ;;; unlock) s = unlock s /\
  (lock ;;; is_locked) s = Ok true (with_lock_flag true s) /\
  (unlock ;;; is_locked) s = Ok false (with_lock_flag false s) /\
  (lock ;;; unlock) s = unlock s /\
  (unlock ;;; lock) s = lock s /\
  is_locked s = Ok (lock_flag s) s /\
  (lock ;;; get_mutable_instance Checked T) s = Halt not_locked (with_lock_flag true s).
Proof.
  repeat split.
Qed.

(** C10.  [lock()] and [unlock()] write the gate and nothing else: the
    flags, the bound statics, the [instance] references and every object
    (its class, its value, its lifetime) are what they were, so each [T] is
    as constructed, as destroyed and as valued as before. *)
Theorem gate_toggles_frame (T : tid) (s : state) :
  let after_lock := final (lock s) in
  let after_unlock := final (unlock s) in
  (m_is_destroyed after_lock = m_is_destroyed s /\
   t after_lock = t s /\
   instance after_lock = instance s /\
   objects after_lock = objects s) /\
  (m_is_destroyed after_unlock = m_is_destroyed s /\
   t after_unlock = t s /\
   instance after_unlock = instance s /\
   objects after_unlock = objects s) /\
  (flag T after_lock = flag T s /\ flag T after_unlock = flag T s) /\
  (constructed T after_lock = constructed T s /\
   constructed T after_unlock = constructed T s) /\
  (construction_of T after_lock = construction_of T s /\
   construction_of T after_unlock = construction_of T s) /\
  (torn_down T after_lock = torn_down T s /\
   torn_down T after_unlock = torn_down T s).
Proof. repeat split. Qed.


(** C1, as amended.  In a checked build, while the gate is locked every
    [get_mutable_instance()] stops at the gate assertion, in the state it
    was called in.  [get_const_instance()] never stops at the gate
    assertion and its outcome is the same whatever the gate is; it stops
    exactly when the flag of [T] is set, at the assertion of
    [get_instance()]. *)
Theorem gate_enforcement (b : build) (T : tid) (s : state) :
  (lock_flag s = true -> get_mutable_instance Checked T s = Halt not_locked s) /\
  (forall s', get_const_instance b T s <> Halt not_locked s') /\
  (forall g, get_const_instance b T (with_lock_flag g s) =
             on_final (with_lock_flag g) (get_const_instance b T s)) /\
  (flag T s = true <-> exists s', get_const_instance Checked T s = Halt not_destroyed s') /\
  (flag T s = false <-> exists r s', get_const_instance Checked T s = Ok r s').
Proof.
  split; [|split; [|split; [|split]]].
  - intros L. now rewrite get_mutable_instance_spec, L.
  - intros s'. unfold Default.get_const_instance.
    destruct (get_instance_spec b T s) as (r & _ & ->).
    destruct b; [destruct (flag T s)|]; discriminate.
  - intros g. unfold Default.get_const_instance.
    destruct (get_instance_spec b T s) as (r & Hr & ->).
    destruct (get_instance_spec b T (with_lock_flag g s)) as (r' & Hr' & ->).
    assert (A : after_static_t T (with_lock_flag g s)
                = with_lock_flag g (after_static_t T s)).
    { unfold Default.after_static_t, Default.static_t. simpl.
      destruct (t s !! T); reflexivity. }
    rewrite A in *. simpl in Hr'. rewrite Hr in Hr'. injection Hr' as <-.
    change (flag T (with_lock_flag g s)) with (flag T s).
    destruct b; [destruct (flag T s)|]; reflexivity.
  - unfold Default.get_const_instance.
    destruct (get_instance_spec Checked T s) as (r & _ & ->).
    destruct (flag T s); split; eauto; try discriminate.
    intros [s' [=]].
  - unfold Default.get_const_instance.
    destruct (get_instance_spec Checked T s) as (r & _ & ->).
    destruct (flag T s); split; eauto; try discriminate.
    intros (r' & s' & [=]).
Qed.

(** *** One object per class *)

(** C2.  Take any two accessor calls for the same [T], each of them mutable
    or const, with any calls of the program in between.  If both return,
    they return the same reference, and [t] is still bound to that object
    afterwards. *)
Theorem same_instance (b : build) (T : tid) (a1 a2 : access) (cs : list call)
    (s s1 s2 s3 : state) (r1 r2 : ref) (answers : list answer) :
  accessor a1 b T s = Ok r1 s1 ->
  run b cs s1 = Ok answers s2 ->
  accessor a2 b T s2 = Ok r2 s3 ->
  r1 = r2 /\ t s3 !! T = Some r1.
Proof.
  intros H1 Hrun H2.
  apply accessor_ok_t in H1.
  pose proof (evolves_run b cs s1) as E. rewrite Hrun in E. simpl in E.
  apply (ev_t _ _ E) in H1.
  pose proof (evolves_run_call b
                (match a2 with
                 | mutable => c_get_mutable_instance T
                 | const => c_get_const_instance T
                 end) s2) as E2.
  assert (F : final (accessor a2 b T s2) = s3) by now rewrite H2.
  assert (E3 : evolves s2 s3).
  { rewrite <- F. destruct a2; unfold Default.run_call in E2;
      rewrite final_then_ret in E2; exact E2. }
  apply (ev_t _ _ E3) in H1.
  apply accessor_ok_t in H2.
  split; [congruence|exact H1].
Qed.

Lemma first_touch (T : tid) (s : state) :
  wf s -> constructed T s = false ->
  flag T s = false /\
  t (after_static_t T s) !! T = Some (length (objects s)) /\
  objects (after_static_t T s) = objects s ++ [Object T (construct T) true] /\
  instance (after_static_t T s) = instance s /\
  constructions T (after_static_t T s) = 1.
Proof.
  intros W Hc.
  assert (Hn : t s !! T = None).
  { unfold constructed in Hc. apply bool_decide_eq_false_1 in Hc.
    now apply eq_None_not_Some. }
  assert (E : after_static_t T s
              = with_t (<[T := length (objects s)]> (t s))
                  (with_objects (objects s ++ [Object T (construct T) true]) s)).
  { unfold Default.after_static_t. now rewrite (static_t_new _ _ Hn). }
  assert (B : t (after_static_t T s) !! T = Some (length (objects s))).
  { rewrite E. simpl. apply lookup_insert_eq. }
  split; [|split; [exact B|split; [now rewrite E|split; [now rewrite E|]]]].
  - rewrite (wf_flag _ W). unfold torn_down. now rewrite Hn.
  - rewrite (wf_count _ (wf_after_static_t T s W)). unfold constructed.
    rewrite B. now rewrite bool_decide_eq_true_2 by eauto.
Qed.

Lemma later_touch (T : tid) (s : state) :
  constructed T s = true -> after_static_t T s = s.
Proof.
  unfold constructed. intros Hc. apply bool_decide_eq_true_1 in Hc.
  destruct Hc as [r Hr].
  unfold Default.after_static_t. now rewrite (static_t_old _ _ _ Hr).
Qed.

(** C4.  In every state a program reaches, the constructor of [T] has run
    once if control has passed through [get_instance()] of [T] and not at
    all otherwise.  Nothing has run at load time; a call that does not
    enter [get_instance()] of [T] runs no constructor of [T], so that none
    has run before the first such call; a call that enters it and returns
    leaves exactly one run behind, be it an accessor or the initialiser of
    [instance]; and when that initialiser came first the count stays at
    one.

    The first access does construct.  While [T] is unconstructed, an
    accessor (the mutable one with the gate unlocked, or in an unchecked
    build) returns, and so does the initialiser of [instance]: the call
    runs the constructor of [T] once, the new object is the only one added
    to the load unit, and it is the object the call returns or binds.
    Once [T] is constructed and not torn down, the same calls return and
    construct nothing: an accessor leaves the statics as they are, and the
    initialiser adds no object. *)
Theorem constructed_exactly_once (b : build) (T : tid) (cs : list call) :
  let s := final (run b cs init) in
  constructions T init = 0 /\
  constructions T s = (if constructed T s then 1 else 0) /\
  (forall c, touches T c = false ->
             constructions T (final (run_call b c s)) = constructions T s) /\
  (forallb (fun c => negb (touches T c)) cs = true -> constructions T s = 0) /\
  (forall c a s', touches T c = true -> run_call b c s = Ok a s' ->
                  constructions T s' = 1) /\
  (forall cs', constructions T (final (run b (c_init_instance T :: cs') s)) <= 1) /\
  (constructed T s = false ->
   forall a, (b = Checked -> a = mutable -> lock_flag s = false) ->
   exists s',
     accessor a b T s = Ok (length (objects s)) s' /\
     objects s' = objects s ++ [Object T (construct T) true] /\
     constructions T s' = 1) /\
  (constructed T s = false ->
   exists s',
     init_instance b T s = Ok tt s' /\
     objects s' = objects s ++ [Object T (construct T) true] /\
     instance s' !! T = Some (length (objects s)) /\
     constructions T s' = 1) /\
  (constructed T s = true -> flag T s = false ->
   (forall a, (b = Checked -> a = mutable -> lock_flag s = false) ->
              exists r, accessor a b T s = Ok r s /\ constructions T s = 1) /\
   (exists s', init_instance b T s = Ok tt s' /\
               objects s' = objects s /\ constructions T s' = 1)).
Proof.
  intros s.
  assert (W : wf s) by (apply wf_run, wf_init).
  split; [reflexivity|]. split; [apply (wf_count _ W)|].
  split; [|split; [|split; [|split; [|split; [|split]]]]].
  - intros c Hc. pose proof (construction_frame b T c s Hc) as F.
    unfold construction_of in F. congruence.
  - intros Hcs. pose proof (construction_frame_run b T cs init Hcs) as F.
    unfold construction_of in F. fold s in F.
    change (constructions T s = constructions T init). congruence.
  - intros c a s' Hc Hr.
    assert (W' : wf s').
    { rewrite <- (run_ok_final _ _ _ _ Hr). now apply wf_run_call. }
    rewrite (wf_count _ W'). now rewrite (touch_constructs b T c s s' a Hc Hr).
  - intros cs'.
    assert (W' : wf (final (run b (c_init_instance T :: cs') s)))
      by now apply wf_run.
    rewrite (wf_count _ W'). destruct (constructed T _); lia.
  - intros Hc a Hg.
    destruct (first_touch T s W Hc) as (F & B & Ho & _ & Hn).
    destruct (accessor_returns a b T s (fun _ => F) Hg) as [r Hr].
    pose proof (accessor_ok_t _ _ _ _ _ _ Hr) as B'.
    assert (r = length (objects s)) by congruence. subst r.
    exists (after_static_t T s). auto.
  - intros Hc.
    destruct (first_touch T s W Hc) as (F & B & Ho & Hi & Hn).
    destruct (get_instance_returns b T s (fun _ => F)) as [r Hr].
    pose proof (accessor_ok_t const b T s _ r Hr) as B'.
    assert (r = length (objects s)) by congruence. subst r.
    unfold Default.init_instance, bind. rewrite Hr.
    eexists. split; [reflexivity|]. simpl.
    split; [exact Ho|]. split; [apply lookup_insert_eq|exact Hn].
  - intros Hc F.
    pose proof (later_touch T s Hc) as A.
    assert (Hn : constructions T s = 1) by now rewrite (wf_count _ W), Hc.
    split.
    + intros a Hg.
      destruct (accessor_returns a b T s (fun _ => F) Hg) as [r Hr].
      rewrite A in Hr. eauto.
    + destruct (get_instance_returns b T s (fun _ => F)) as [r Hr].
      rewrite A in Hr. unfold Default.init_instance, bind. rewrite Hr.
      eexists. split; [reflexivity|]. auto.
Qed.

(** *** The destroyed flag *)

(** C3.  The flag of [T] is [false] at load time.  In every state a
    program reaches, [is_destroyed()] returns whether the destructor of the
    wrapper of [T] has run, and changes nothing.  Only the destruction step
    of [T] writes the flag: every other call leaves it as it is, so it is
    [false] as long as no teardown has happened.  The destruction of a
    constructed wrapper sets it, and once set it stays set through all
    later calls. *)
Theorem destroyed_flag_one_shot (b : build) (T : tid) (cs : list call) :
  let s := final (run b cs init) in
  is_destroyed T init = Ok false init /\
  is_destroyed T s = Ok (torn_down T s) s /\
  (forall c, destroys T c = false -> flag T (final (run_call b c s)) = flag T s) /\
  (forallb (fun c => negb (destroys T c)) cs = true -> is_destroyed T s = Ok false s) /\
  (constructed T s = true ->
   is_destroyed T (final (atexit_destroy T s)) = Ok true (final (atexit_destroy T s))) /\
  (forall cs', flag T s = true ->
               is_destroyed T (final (run b cs' s)) = Ok true (final (run b cs' s))).
Proof.
  intros s.
  assert (W : wf s) by (apply wf_run, wf_init).
  split; [reflexivity|]. split; [|split; [|split; [|split]]].
  - rewrite is_destroyed_spec. now rewrite (wf_flag _ W).
  - intros c Hc. now apply flag_frame.
  - intros Hcs. rewrite is_destroyed_spec.
    pose proof (flag_frame_run b T cs init Hcs) as F.
    change (flag T s = false) in F. now rewrite F.
  - intros Hc. rewrite is_destroyed_spec. f_equal.
    unfold constructed in Hc. apply bool_decide_eq_true_1 in Hc.
    destruct Hc as [r Hr].
    pose proof (wf_t _ W _ _ Hr) as Ho.
    pose proof (wf_flag _ W T) as F. unfold torn_down in F.
    unfold atexit_destroy. rewrite Hr in *.
    destruct (objects s !! r) as [o|]; [|discriminate].
    destruct (o_alive o); [|exact F].
    unfold flag. simpl. now rewrite lookup_insert_eq.
  - intros cs' F. rewrite is_destroyed_spec. f_equal.
    exact (ev_flag _ _ (evolves_run b cs' s) T F).
Qed.

(** *** Use after destruction *)

(** C8.  [get_const_instance()] is [get_instance()]: each call evaluates
    the assertion on the flag of [T].  In a checked build the call stops
    there exactly when the flag is set; in a state a program reaches after
    the wrapper of [T] was torn down, the const accessor stops at that
    assertion and leaves the statics as they were. *)
Theorem const_access_asserts_not_destroyed (b : build) (T : tid) (cs : list call) :
  let s := final (run b cs init) in
  (forall s0, get_const_instance b T s0 = get_instance b T s0) /\
  (forall s0, get_const_instance Checked T s0 =
              if flag T s0 then Halt not_destroyed (after_static_t T s0)
              else get_const_instance Unchecked T s0) /\
  (torn_down T s = true -> get_const_instance Checked T s = Halt not_destroyed s).
Proof.
  intros s. split; [reflexivity|]. split.
  - intros s0. unfold Default.get_const_instance.
    destruct (get_instance_spec Checked T s0) as (r & Hr & ->).
    destruct (get_instance_spec Unchecked T s0) as (r' & Hr' & ->).
    destruct (flag T s0); [reflexivity|]. congruence.
  - intros D.
    assert (W : wf s) by (apply wf_run, wf_init).
    rewrite <- (wf_flag _ W) in D.
    apply (torn_down_halts T s W D).
Qed.


(** ** Further properties of the default design *)

(** *** Helpers *)

Lemma wf_accessor (a : access) (b : build) (T : tid) (s : state) :
  wf s -> wf (final (accessor a b T s)).
Proof.
  destruct a; unfold Default.accessor;
    [apply wf_get_mutable_instance|apply wf_get_instance].
Qed.

Lemma evolves_accessor (a : access) (b : build) (T : tid) (s : state) :
  evolves s (final (accessor a b T s)).
Proof.
  destruct a; unfold Default.accessor;
    [apply evolves_get_mutable_instance|apply evolves_get_instance].
Qed.

Lemma atexit_destroy_sets_flag (T : tid) (s : state) :
  wf s -> constructed T s = true -> flag T (final (atexit_destroy T s)) = true.
Proof.
  intros W Hc. unfold constructed in Hc. apply bool_decide_eq_true_1 in Hc.
  destruct Hc as [r Hr].
  pose proof (wf_t _ W _ _ Hr) as Ho.
  pose proof (wf_flag _ W T) as F. unfold torn_down in F.
  unfold atexit_destroy. rewrite Hr in *.
  destruct (objects s !! r) as [o|]; [|discriminate].
  destruct (o_alive o); [|exact F].
  unfold flag. simpl. now rewrite lookup_insert_eq.
Qed.

Lemma atexit_destroy_done (T : tid) (s : state) :
  wf s -> flag T s = constructed T s -> atexit_destroy T s = Ok tt s.
Proof.
  intros W H. rewrite (wf_flag _ W) in H. unfold torn_down, constructed in H.
  unfold atexit_destroy.
  destruct (t s !! T) as [r|]; [|reflexivity].
  destruct (objects s !! r) as [o|]; [|reflexivity].
  rewrite bool_decide_eq_true_2 in H by eauto.
  destruct (o_alive o); [discriminate|reflexivity].
Qed.

(** *** A call that stops *)

Lemma get_instance_halt (b : build) (T : tid) (s s' : state) (why : assertion) :
  wf s -> get_instance b T s = Halt why s' ->
  s' = s /\ b = Checked /\ why = not_destroyed /\ torn_down T s = true.
Proof.
  intros W H. destruct (get_instance_spec b T s) as (r & _ & E).
  rewrite E in H. destruct b; [|discriminate].
  destruct (flag T s) eqn:F; [|discriminate].
  injection H as <- <-.
  destruct (torn_down_halts T s W F) as [A _].
  rewrite <- (wf_flag _ W). auto.
Qed.

Lemma get_mutable_instance_halt (b : build) (T : tid) (s s' : state) (why : assertion) :
  wf s -> get_mutable_instance b T s = Halt why s' ->
  s' = s /\ b = Checked /\
  match why with
  | not_locked => lock_flag s = true
  | not_destroyed => torn_down T s = true
  end.
Proof.
  intros W H. rewrite get_mutable_instance_spec in H.
  destruct b.
  - destruct (lock_flag s) eqn:L.
    + injection H as <- <-. auto.
    + apply get_instance_halt in H; [|exact W].
      destruct H as (-> & _ & -> & D). auto.
  - apply get_instance_halt in H; [|exact W]. now destruct H as (_ & [=] & _).
Qed.

Lemma atexit_destroy_returns (T : tid) (s : state) :
  exists s', atexit_destroy T s = Ok tt s'.
Proof.
  unfold atexit_destroy.
  destruct (t s !! T) as [r|]; [|eauto].
  destruct (objects s !! r) as [o|]; [|eauto].
  destruct (o_alive o); eauto.
Qed.

Lemma destroy_each_returns (Ts : list tid) (s : state) :
  exists s', destroy_each Ts s = Ok tt s'.
Proof.
  revert s. induction Ts as [|T Ts IH]; intros s; cbn [destroy_each].
  - now exists s.
  - unfold bind. destruct (atexit_destroy_returns T s) as [s1 ->]. apply IH.
Qed.

(** X1.  A call that stops has changed nothing: the statics are those the
    call found.  Only a checked build stops, and only in two ways: at the
    gate assertion, in a mutable access while the gate is locked, and at
    the assertion of [get_instance()], in a call that enters it for a
    class whose wrapper was torn down.  In particular a mutable access
    that is refused at the gate does not construct the class. *)
Theorem stop_changes_nothing (b : build) (cs : list call) (c : call)
    (why : assertion) (s' : state) :
  let s := final (run b cs init) in
  run_call b c s = Halt why s' ->
  s' = s /\ b = Checked /\
  match why with
  | not_locked => lock_flag s = true /\ exists T, c = c_get_mutable_instance T
  | not_destroyed => exists T, touches T c = true /\ torn_down T s = true
  end.
Proof.
  intros s H.
  assert (W : wf s) by (apply wf_run, wf_init).
  destruct c; unfold Default.run_call, bind in H; try discriminate.
  - destruct (get_mutable_instance b T s) as [|why' s1] eqn:E; [discriminate|].
    injection H as <- <-.
    apply get_mutable_instance_halt in E; [|exact W].
    destruct E as (-> & -> & E). repeat split.
    destruct why'; [eauto|].
    exists T. simpl. now rewrite bool_decide_eq_true_2.
  - unfold Default.get_const_instance in H.
    destruct (get_instance b T s) as [|why' s1] eqn:E; [discriminate|].
    injection H as <- <-.
    apply get_instance_halt in E; [|exact W].
    destruct E as (-> & -> & -> & D). repeat split.
    exists T. simpl. now rewrite bool_decide_eq_true_2.
  - unfold Default.init_instance, bind in H.
    destruct (get_instance b T s) as [|why' s1] eqn:E; [discriminate|].
    injection H as <- <-.
    apply get_instance_halt in E; [|exact W].
    destruct E as (-> & -> & -> & D). repeat split.
    exists T. simpl. now rewrite bool_decide_eq_true_2.
  - destruct (atexit_destroy_returns T s) as [s1 E].
    rewrite E in H. discriminate.
  - unfold teardown, bind, gets in H.
    destruct (destroy_each_returns (reverse (o_type <$> objects s)) s) as [s1 E].
    rewrite E in H. discriminate.
Qed.

(** *** The two builds *)

Lemma get_instance_agree (T : tid) (s s' : state) (r : ref) :
  get_instance Checked T s = Ok r s' -> get_instance Unchecked T s = Ok r s'.
Proof.
  destruct (get_instance_spec Checked T s) as (r1 & H1 & ->).
  destruct (get_instance_spec Unchecked T s) as (r2 & H2 & ->).
  destruct (flag T s); [discriminate|]. intros [= <- <-]. congruence.
Qed.

Lemma get_mutable_instance_agree (T : tid) (s s' : state) (r : ref) :
  get_mutable_instance Checked T s = Ok r s' ->
  get_mutable_instance Unchecked T s = Ok r s'.
Proof.
  rewrite !get_mutable_instance_spec.
  destruct (lock_flag s); [discriminate|]. apply get_instance_agree.
Qed.

Lemma run_call_agree (c : call) (s s' : state) (a : answer) :
  run_call Checked c s = Ok a s' -> run_call Unchecked c s = Ok a s'.
Proof.
  destruct c; unfold Default.run_call, bind; try (intros H; exact H).
  - destruct (get_mutable_instance Checked T s) as [r s1|] eqn:E; [|discriminate].
    now rewrite (get_mutable_instance_agree _ _ _ _ E).
  - unfold Default.get_const_instance.
    destruct (get_instance Checked T s) as [r s1|] eqn:E; [|discriminate].
    now rewrite (get_instance_agree _ _ _ _ E).
  - unfold Default.init_instance, bind.
    destruct (get_instance Checked T s) as [r s1|] eqn:E; [|discriminate].
    now rewrite (get_instance_agree _ _ _ _ E).
Qed.

Lemma run_call_unchecked_returns (c : call) (s : state) :
  exists a s', run_call Unchecked c s = Ok a s'.
Proof.
  assert (G : forall T, exists r s', get_instance Unchecked T s = Ok r s').
  { intros T. destruct (get_instance_spec Unchecked T s) as (r & _ & ->). eauto. }
  destruct c; unfold Default.run_call, bind; try (simpl; eauto; fail).
  - rewrite get_mutable_instance_spec. destruct (G T) as (r & s' & ->). eauto.
  - unfold Default.get_const_instance. destruct (G T) as (r & s' & ->). eauto.
  - unfold Default.init_instance, bind. destruct (G T) as (r & s' & ->).
    simpl. eauto.
  - destruct (atexit_destroy_returns T s) as [s1 ->]. eauto.
  - unfold teardown, bind, gets.
    destruct (destroy_each_returns (reverse (o_type <$> objects s)) s) as [s1 ->].
    eauto.
Qed.

Lemma run_cons (b : build) (c : call) (cs : list call) (s : state) :
  run b (c :: cs) s =
    match run_call b c s with
    | Ok a s1 =>
        match run b cs s1 with
        | Ok rest s2 => Ok (a :: rest) s2
        | Halt why s2 => Halt why s2
        end
    | Halt why s1 => Halt why s1
    end.
Proof.
  cbn [Default.run]. unfold bind.
  destruct (Default.run_call construct b c s) as [a s1|]; [|reflexivity].
  destruct (Default.run construct b cs s1); reflexivity.
Qed.

(** X2.  The assertions only check.  In a build without them every program
    runs to its end, from any state of the statics; and whenever the
    checked build runs a program to its end, the unchecked build gives the
    same answers and leaves the same statics. *)
Theorem unchecked_build_agrees (cs : list call) (s : state) :
  (exists answers s', run Unchecked cs s = Ok answers s') /\
  (forall answers s', run Checked cs s = Ok answers s' ->
                      run Unchecked cs s = Ok answers s').
Proof.
  revert s. induction cs as [|c cs IH]; intros s.
  - split; [now exists [], s|auto].
  - rewrite !run_cons. split.
    + destruct (run_call_unchecked_returns c s) as (a & s1 & ->).
      destruct (proj1 (IH s1)) as (rest & s2 & ->). eauto.
    + intros answers s'.
      destruct (run_call Checked c s) as [a s1|] eqn:E; [|discriminate].
      rewrite (run_call_agree _ _ _ _ E).
      destruct (run Checked cs s1) as [rest s2|] eqn:E2; [|discriminate].
      now rewrite (proj2 (IH s1) _ _ E2).
Qed.

(** *** Classes and objects *)

(** X3.  Different classes never share an object.  Along any program, the
    reference an accessor returns for [T1] differs from the reference an
    accessor returns for another class [T2], and it denotes an object of
    class [T1]. *)
Theorem distinct_classes_distinct_objects (b : build) (T1 T2 : tid)
    (a1 a2 : access) (cs cs' : list call) (r1 r2 : ref) (s1 s2 s3 : state)
    (answers : list answer) :
  let s := final (run b cs init) in
  accessor a1 b T1 s = Ok r1 s1 ->
  run b cs' s1 = Ok answers s2 ->
  accessor a2 b T2 s2 = Ok r2 s3 ->
  T1 <> T2 ->
  r1 <> r2 /\ o_type <$> objects s1 !! r1 = Some T1.
Proof.
  intros s H1 Hrun H2 D.
  assert (W : wf s) by (apply wf_run, wf_init).
  assert (W1 : wf s1).
  { rewrite <- (run_ok_final _ _ _ _ H1). now apply wf_accessor. }
  assert (W2 : wf s2).
  { rewrite <- (run_ok_final _ _ _ _ Hrun). now apply wf_run. }
  assert (W3 : wf s3).
  { rewrite <- (run_ok_final _ _ _ _ H2). now apply wf_accessor. }
  pose proof (accessor_ok_t _ _ _ _ _ _ H1) as B1.
  pose proof (accessor_ok_t _ _ _ _ _ _ H2) as B2.
  split; [|exact (wf_t _ W1 _ _ B1)].
  intros ->. apply D.
  pose proof (evolves_run b cs' s1) as E. rewrite Hrun in E. simpl in E.
  pose proof (evolves_accessor a2 b T2 s2) as E'. rewrite H2 in E'. simpl in E'.
  apply (ev_t _ _ E), (ev_t _ _ E') in B1.
  exact (wf_t_inj s3 T1 T2 r2 W3 B1 B2).
Qed.

(** *** The wrapped value *)

Lemma value_after_static_t (T : tid) (r : ref) (v : V) (s : state) :
  value_at r s = Some v -> value_at r (after_static_t T s) = Some v.
Proof.
  unfold value_at, Default.after_static_t, Default.static_t.
  destruct (t s !! T); simpl; [auto|].
  intros H. rewrite lookup_app_l; [exact H|].
  destruct (objects s !! r) eqn:E; [|discriminate].
  now apply lookup_lt_Some in E.
Qed.

Lemma value_alter (f : object -> object) (r r' : ref) (v : V) (s : state) :
  (forall o, o_val (f o) = o_val o) ->
  value_at r s = Some v ->
  value_at r (with_objects (alter f r' (objects s)) s) = Some v.
Proof.
  intros Hf. unfold value_at. simpl. rewrite list_lookup_alter.
  case_decide as D; [subst r'|auto].
  destruct (objects s !! r); simpl; [now rewrite Hf|auto].
Qed.

Lemma value_atexit_destroy (T : tid) (r : ref) (v : V) (s : state) :
  value_at r s = Some v -> value_at r (final (atexit_destroy T s)) = Some v.
Proof.
  intros H. unfold atexit_destroy.
  destruct (t s !! T) as [r'|]; [|exact H].
  destruct (objects s !! r') as [o|]; [|exact H].
  destruct (o_alive o); [|exact H].
  simpl. now apply (value_alter end_lifetime r r' v
                      (with_m_is_destroyed (<[T:=true]> (m_is_destroyed s)) s)).
Qed.

Lemma value_destroy_each (Ts : list tid) (r : ref) (v : V) (s : state) :
  value_at r s = Some v -> value_at r (final (destroy_each Ts s)) = Some v.
Proof.
  revert s. induction Ts as [|T Ts IH]; intros s H; cbn [destroy_each]; [exact H|].
  rewrite final_bind. pose proof (value_atexit_destroy T r v s H) as H'.
  destruct (atexit_destroy T s); simpl in *; auto.
Qed.

Lemma value_get_instance (b : build) (T : tid) (r : ref) (v : V) (s : state) :
  value_at r s = Some v -> value_at r (final (get_instance b T s)) = Some v.
Proof. rewrite get_instance_final. apply value_after_static_t. Qed.

Lemma value_accessor (a : access) (b : build) (T : tid) (r : ref) (v : V)
    (s : state) :
  value_at r s = Some v -> value_at r (final (accessor a b T s)) = Some v.
Proof.
  intros H. destruct a; unfold Default.accessor; [|now apply value_get_instance].
  rewrite get_mutable_instance_spec.
  destruct b; [destruct (lock_flag s); [exact H|]|]; now apply value_get_instance.
Qed.

Lemma value_run_call (b : build) (c : call) (r : ref) (v : V) (s : state) :
  writes r c = false ->
  value_at r s = Some v -> value_at r (final (run_call b c s)) = Some v.
Proof.
  destruct c; unfold Default.run_call, writes; rewrite final_then_ret;
    intros Hc H; try exact H.
  - exact (value_accessor mutable b T r v s H).
  - exact (value_accessor const b T r v s H).
  - unfold Default.init_instance. rewrite final_bind.
    pose proof (value_get_instance b T r v s H) as G.
    now destruct (get_instance b T s).
  - now apply value_atexit_destroy.
  - now apply value_destroy_each.
  - apply bool_decide_eq_false_1 in Hc.
    unfold store, modify, final, value_at. simpl.
    rewrite list_lookup_alter_ne by exact Hc. exact H.
Qed.

Lemma value_run (b : build) (cs : list call) (r : ref) (v : V) (s : state) :
  forallb (fun c => negb (writes r c)) cs = true ->
  value_at r s = Some v -> value_at r (final (run b cs s)) = Some v.
Proof.
  revert s. induction cs as [|c cs IH]; intros s; cbn [forallb]; [auto|].
  rewrite andb_true_iff, negb_true_iff. intros [Hc Hcs] H.
  rewrite run_cons. pose proof (value_run_call b c r v s Hc H) as H1.
  destruct (run_call b c s) as [a s1|]; [|exact H1].
  specialize (IH s1 Hcs H1). now destruct (run b cs s1).
Qed.

(** X4.  What is written through the reference of a singleton is what a
    later access reads.  Take a reference an accessor returned for [T] and
    store [v] through it; then, whatever the program calls next short of
    another store through that reference, an accessor for [T] that
    returns while the wrapper is not destroyed gives a reference behind
    which the value is [v]: no call constructs [T] anew or resets it. *)
Theorem written_value_is_read_back (b : build) (T : tid) (a1 a2 : access)
    (cs0 cs : list call) (r r2 : ref) (v : V) (s1 s2 s3 : state)
    (answers : list answer) :
  let s := final (run b cs0 init) in
  accessor a1 b T s = Ok r s1 ->
  forallb (fun c => negb (writes r c)) cs = true ->
  run b (c_store r v :: cs) s1 = Ok answers s2 ->
  accessor a2 b T s2 = Ok r2 s3 ->
  is_destroyed T s3 = Ok false s3 ->
  r2 = r /\ load r2 s3 = Ok (Some v) s3.
Proof.
  intros s H1 Hcs Hrun H2 _.
  assert (W1 : wf s1).
  { rewrite <- (run_ok_final _ _ _ _ H1). apply wf_accessor, wf_run, wf_init. }
  pose proof (accessor_ok_t _ _ _ _ _ _ H1) as B1.
  pose proof (accessor_ok_t _ _ _ _ _ _ H2) as B2.
  pose proof (evolves_run b (c_store r v :: cs) s1) as E.
  rewrite Hrun in E. simpl in E.
  pose proof (evolves_accessor a2 b T s2) as E'. rewrite H2 in E'. simpl in E'.
  pose proof (ev_t _ _ E' _ _ (ev_t _ _ E _ _ B1)) as B3.
  assert (r2 = r) by congruence. subst r2. split; [reflexivity|].
  assert (Hv : value_at r (final (store r v s1)) = Some v).
  { pose proof (wf_t _ W1 _ _ B1) as Ho.
    unfold store, modify, final, value_at. simpl.
    rewrite list_lookup_alter, decide_True by reflexivity.
    destruct (objects s1 !! r); [reflexivity|discriminate]. }
  rewrite run_cons in Hrun. unfold Default.run_call in Hrun at 1.
  change ((store r v;;; ret a_void) s1) with (Ok (E := assertion) (@a_void V) (final (store r v s1))) in Hrun.
  cbv beta iota in Hrun.
  pose proof (value_run b cs r v _ Hcs Hv) as Hv2.
  destruct (run b cs (final (store r v s1))) as [rest s2'|] eqn:Er; [|discriminate].
  injection Hrun as _ Hs. subst s2'. simpl in Hv2.
  pose proof (value_accessor a2 b T r v s2 Hv2) as Hv3.
  rewrite H2 in Hv3. simpl in Hv3.
  unfold load, gets. fold (value_at r s3). now rewrite Hv3.
Qed.

(** *** The static reference member *)

Lemma after_static_t_with_lock_flag (g : bool) (T : tid) (s : state) :
  after_static_t T (with_lock_flag g s) = with_lock_flag g (after_static_t T s).
Proof.
  unfold Default.after_static_t, Default.static_t. simpl.
  destruct (t s !! T); reflexivity.
Qed.

Lemma get_instance_with_lock_flag (b : build) (g : bool) (T : tid) (s : state) :
  get_instance b T (with_lock_flag g s)
  = on_final (with_lock_flag g) (get_instance b T s).
Proof.
  destruct (get_instance_spec b T s) as (r & Hr & ->).
  destruct (get_instance_spec b T (with_lock_flag g s)) as (r' & Hr' & ->).
  rewrite after_static_t_with_lock_flag in *. simpl in Hr'.
  rewrite Hr in Hr'. injection Hr' as <-.
  change (flag T (with_lock_flag g s)) with (flag T s).
  destruct b; [destruct (flag T s)|]; reflexivity.
Qed.

(** X5.  Once its initialiser has run, [singleton<T>::instance] refers to
    the singleton itself: in every state a program reaches, an accessor
    for [T] that returns gives the object [instance] is bound to, and
    leaves [instance] bound to it.  The initialiser, when it returns,
    binds [instance] to the object [t] is bound to. *)
Theorem instance_is_the_singleton (b : build) (T : tid) (cs : list call)
    (a : access) :
  let s := final (run b cs init) in
  (forall r r' s', instance s !! T = Some r -> accessor a b T s = Ok r' s' ->
                   r' = r /\ instance s' !! T = Some r) /\
  (forall s', init_instance b T s = Ok tt s' ->
              exists r, instance s' !! T = Some r /\ t s' !! T = Some r).
Proof.
  intros s.
  assert (W : wf s) by (apply wf_run, wf_init).
  split.
  - intros r r' s' Hi Ha.
    pose proof (wf_instance _ W _ _ Hi) as Ht.
    pose proof (evolves_accessor a b T s) as E. rewrite Ha in E. simpl in E.
    apply (ev_t _ _ E) in Ht.
    pose proof (accessor_ok_t _ _ _ _ _ _ Ha) as Ht'.
    split; [congruence|].
    assert (F : instance (final (accessor a b T s)) = instance s).
    { destruct a; unfold Default.accessor.
      - rewrite get_mutable_instance_spec.
        destruct b; [destruct (lock_flag s); [reflexivity|]|];
          rewrite get_instance_final; apply after_static_t_frame.
      - rewrite get_instance_final. apply after_static_t_frame. }
    rewrite Ha in F. simpl in F. now rewrite F.
  - intros s' H. unfold Default.init_instance, bind in H.
    destruct (get_instance b T s) as [r s1|] eqn:E; [|discriminate].
    injection H as <-. exists r. simpl.
    split; [apply lookup_insert_eq|].
    exact (accessor_ok_t const b T s s1 r E).
Qed.

(** X6.  The initialiser of [instance] calls [get_instance()] and not
    [get_mutable_instance()], so it is not gated: its outcome is the same
    whatever the gate is, and with the gate locked it still constructs a
    class that was not torn down. *)
Theorem eager_touch_is_not_gated (b : build) (T : tid) (g : bool) (s : state) :
  init_instance b T (with_lock_flag g s)
  = on_final (with_lock_flag g) (init_instance b T s) /\
  (flag T s = false ->
   exists s', init_instance Checked T (with_lock_flag true s) = Ok tt s' /\
              constructed T s' = true /\ lock_flag s' = true).
Proof.
  split.
  - unfold Default.init_instance, bind.
    rewrite get_instance_with_lock_flag.
    destruct (get_instance b T s); reflexivity.
  - intros F. unfold Default.init_instance, bind.
    rewrite get_instance_with_lock_flag.
    destruct (get_instance_spec Checked T s) as (r & Hr & ->). rewrite F.
    simpl. eexists. split; [reflexivity|]. simpl. split; [|reflexivity].
    unfold constructed. simpl. rewrite Hr. now apply bool_decide_eq_true_2.
Qed.

(** *** Teardown of the load unit *)

Lemma destroy_each_flags (Ts : list tid) (T : tid) (s : state) :
  wf s -> T ∈ Ts -> constructed T s = true ->
  flag T (final (destroy_each Ts s)) = true.
Proof.
  revert s. induction Ts as [|T' Ts IH]; intros s W Hin Hc.
  - now apply elem_of_nil in Hin.
  - cbn [destroy_each]. rewrite final_bind.
    destruct (atexit_destroy_returns T' s) as [s1 E1].
    pose proof (wf_atexit_destroy T' s W) as W1.
    pose proof (construction_atexit_destroy T T' s) as C1.
    rewrite E1 in W1, C1. simpl in W1, C1. rewrite E1.
    destruct (decide (T = T')) as [Heq|D]; [subst T'|].
    + pose proof (atexit_destroy_sets_flag T s W Hc) as F.
      rewrite E1 in F. simpl in F.
      exact (ev_flag _ _ (evolves_destroy_each Ts s1) T F).
    + apply IH; [exact W1| |].
      { apply elem_of_cons in Hin as [Heq|Hin]; [congruence|exact Hin]. }
      unfold constructed, construction_of in *.
      injection C1 as C1 _. now rewrite C1.
Qed.

Lemma destroy_each_done (Ts : list tid) (s : state) :
  wf s -> (forall T, flag T s = constructed T s) ->
  destroy_each Ts s = Ok tt s.
Proof.
  intros W H. induction Ts as [|T Ts IH]; cbn [destroy_each]; [reflexivity|].
  unfold bind. now rewrite (atexit_destroy_done T s W (H T)).
Qed.

(** X7.  Teardown of the whole load unit.  In a state a program reaches a
    flag is set only for a class that was constructed.  After teardown
    [is_destroyed()] returns [true] for exactly the classes that had been
    constructed, and [false] for a class that never was; teardown
    constructs nothing; and a second teardown runs no destructor again,
    it leaves the statics as they are. *)
Theorem teardown_destroys_what_was_constructed (b : build) (T : tid)
    (cs : list call) :
  let s := final (run b cs init) in
  let s' := final (teardown s) in
  (flag T s = true -> constructed T s = true) /\
  is_destroyed T s' = Ok (constructed T s) s' /\
  construction_of T s' = construction_of T s /\
  teardown s' = Ok tt s'.
Proof.
  intros s s'.
  assert (W : wf s) by (apply wf_run, wf_init).
  assert (W' : wf s') by (apply wf_destroy_each; exact W).
  assert (C : forall T0, construction_of T0 s' = construction_of T0 s)
    by (intros T0; apply construction_teardown).
  assert (Hc : forall T0, constructed T0 s' = constructed T0 s).
  { intros T0. specialize (C T0). unfold constructed, construction_of in *.
    injection C as C _. now rewrite C. }
  assert (Hf : forall T0, flag T0 s' = constructed T0 s).
  { intros T0. destruct (constructed T0 s) eqn:E.
    - apply destroy_each_flags; [exact W| |exact E].
      unfold constructed in E. apply bool_decide_eq_true_1 in E.
      destruct E as [r Hr]. pose proof (wf_t _ W _ _ Hr) as Ho.
      rewrite <- list_lookup_fmap in Ho.
      rewrite elem_of_reverse. eapply list_elem_of_lookup_2. exact Ho.
    - rewrite (wf_flag _ W'). rewrite <- Hc in E.
      unfold torn_down, constructed in *.
      destruct (t s' !! T0); [|reflexivity].
      rewrite bool_decide_eq_true_2 in E by eauto. discriminate. }
  split; [|split; [|split]].
  - rewrite (wf_flag _ W). unfold torn_down, constructed.
    destruct (t s !! T); [|discriminate].
    intros _. apply bool_decide_eq_true_2. eauto.
  - rewrite is_destroyed_spec. now rewrite Hf.
  - apply C.
  - unfold teardown, bind, gets. apply destroy_each_done; [exact W'|].
    intros T0. now rewrite Hf, Hc.
Qed.

(** *** The gate over a program *)

Lemma lock_flag_atexit_destroy (T : tid) (s : state) :
  lock_flag (final (atexit_destroy T s)) = lock_flag s.
Proof.
  unfold atexit_destroy.
  destruct (t s !! T) as [r|]; [|reflexivity].
  destruct (objects s !! r) as [o|]; [|reflexivity].
  destruct (o_alive o); reflexivity.
Qed.

Lemma lock_flag_destroy_each (Ts : list tid) (s : state) :
  lock_flag (final (destroy_each Ts s)) = lock_flag s.
Proof.
  revert s. induction Ts as [|T Ts IH]; intros s; cbn [destroy_each]; [reflexivity|].
  rewrite final_bind. pose proof (lock_flag_atexit_destroy T s) as H.
  destruct (atexit_destroy T s) as [[] s1|]; simpl in *; [|exact H].
  now rewrite IH.
Qed.

Lemma lock_flag_get_instance (b : build) (T : tid) (s : state) :
  lock_flag (final (get_instance b T s)) = lock_flag s.
Proof. rewrite get_instance_final. apply after_static_t_frame. Qed.

Lemma lock_flag_run_call (b : build) (c : call) (s : state) :
  lock_flag (final (run_call b c s)) = toggle (lock_flag s) c.
Proof.
  destruct c; unfold Default.run_call, toggle; rewrite final_then_ret;
    try reflexivity.
  - rewrite get_mutable_instance_spec.
    destruct b; [destruct (lock_flag s) eqn:L; [exact L|]|];
      rewrite lock_flag_get_instance; auto.
  - apply lock_flag_get_instance.
  - unfold Default.init_instance. rewrite final_bind.
    pose proof (lock_flag_get_instance b T s) as H.
    now destruct (get_instance b T s).
  - apply lock_flag_atexit_destroy.
  - apply lock_flag_destroy_each.
Qed.

(** X11.  The gate is what the last [lock()] or [unlock()] made it.  When
    a program runs to its end, [is_locked()] returns [true] if the last
    gate call of the program was [lock()], [false] if it was [unlock()],
    and what the gate was before if the program has no gate call: no
    accessor, no [is_destroyed()], no initialiser and no destructor ever
    writes the gate. *)
Theorem gate_is_last_toggle (b : build) (cs : list call) (s s' : state)
    (answers : list answer) :
  run b cs s = Ok answers s' ->
  is_locked s' = Ok (gate_after cs (lock_flag s)) s'.
Proof.
  rewrite is_locked_spec. intros H. f_equal.
  revert s answers H. induction cs as [|c cs IH]; intros s answers H.
  - now injection H as _ <-.
  - rewrite run_cons in H. pose proof (lock_flag_run_call b c s) as L.
    destruct (run_call b c s) as [a s1|]; [|discriminate].
    destruct (run b cs s1) as [rest s2|] eqn:E; [|discriminate].
    injection H as _ <-. simpl in L.
    unfold gate_after. simpl. rewrite <- L. exact (IH s1 rest E).
Qed.

End WithValues.

(** *** The theorems at the counter of the scenario *)

Import Counter.

Lemma gate_enforcement_witness :
  get_mutable_instance construct Checked counter (with_lock_flag true init)
  = Halt not_locked (with_lock_flag true init).
Proof.
  exact (proj1 (gate_enforcement construct Checked counter (with_lock_flag true init))
           eq_refl).
Defined.

(** C1, as stated, fails: after the wrapper of [counter] was torn down, a
    checked [get_const_instance()] stops, with the gate unlocked and with
    the gate locked alike. *)
Lemma const_access_halts_when_destroyed :
  reachable construct Checked after_destroy /\
  lock_flag after_destroy = false /\
  get_const_instance construct Checked counter after_destroy
  = Halt not_destroyed after_destroy /\
  get_const_instance construct Checked counter (with_lock_flag true after_destroy)
  = Halt not_destroyed (with_lock_flag true after_destroy).
Proof.
  split.
  { exists [c_get_const_instance counter; c_atexit_destroy counter].
    eexists. vm_compute. reflexivity. }
  repeat split; vm_compute; reflexivity.
Qed.

Lemma same_instance_witness :
  0 = 0 /\
  t (final (accessor construct const Checked counter
              (final (run construct Checked
                        [c_store 0 7%Z; c_get_mutable_instance other; c_lock]
                        (final (accessor construct mutable Checked counter init))))))
    !! counter = Some 0.
Proof.
  eapply (same_instance construct Checked counter mutable const
            [c_store 0 7%Z; c_get_mutable_instance other; c_lock] init);
    vm_compute; reflexivity.
Defined.

Lemma constructed_exactly_once_witness :
  exists s',
    accessor construct mutable Checked counter
      (final (run construct Checked
                [c_get_const_instance other; c_lock; c_is_destroyed counter; c_unlock]
                init))
    = Ok 1 s' /\
    objects s'
    = [Object other 0%Z true] ++ [Object counter (construct counter) true] /\
    constructions counter s' = 1.
Proof.
  exact (proj1 (proj2 (proj2 (proj2 (proj2 (proj2 (proj2
           (constructed_exactly_once construct Checked counter
              [c_get_const_instance other; c_lock; c_is_destroyed counter; c_unlock])))))))
           eq_refl mutable (fun _ _ => eq_refl)).
Defined.

Lemma destroyed_flag_one_shot_witness :
  is_destroyed counter
    (final (run construct Checked
              [c_get_mutable_instance counter; c_atexit_destroy other; c_lock] init))
  = Ok false
      (final (run construct Checked
                [c_get_mutable_instance counter; c_atexit_destroy other; c_lock] init)).
Proof.
  exact (proj1 (proj2 (proj2 (proj2
           (destroyed_flag_one_shot construct Checked counter
              [c_get_mutable_instance counter; c_atexit_destroy other; c_lock]))))
           eq_refl).
Defined.

Lemma const_access_asserts_not_destroyed_witness :
  get_const_instance construct Checked counter after_destroy
  = Halt not_destroyed after_destroy.
Proof.
  exact (proj2 (proj2
           (const_access_asserts_not_destroyed construct Checked counter
              [c_get_const_instance counter; c_atexit_destroy counter]))
           eq_refl).
Defined.



(** *** The further properties at the counter of the scenario *)

Lemma stop_changes_nothing_witness :
  with_lock_flag true init = with_lock_flag true (@Default.init Z) /\
  Checked = Checked /\
  lock_flag (with_lock_flag true (@Default.init Z)) = true /\
  exists T, c_get_mutable_instance (V := Z) counter = c_get_mutable_instance T.
Proof.
  exact (stop_changes_nothing construct Checked [c_lock]
           (c_get_mutable_instance counter) not_locked
           (with_lock_flag true init) eq_refl).
Defined.

Lemma unchecked_build_agrees_witness :
  run construct Unchecked
    [c_get_mutable_instance counter; c_store 0 4%Z; c_lock;
     c_get_const_instance counter; c_load 0] init
  = Ok [a_ref 0; a_void; a_void; a_ref 0; a_val (Some 4%Z)]
       (final (run construct Checked
                 [c_get_mutable_instance counter; c_store 0 4%Z; c_lock;
                  c_get_const_instance counter; c_load 0] init)).
Proof.
  apply (proj2 (unchecked_build_agrees construct
                  [c_get_mutable_instance counter; c_store 0 4%Z; c_lock;
                   c_get_const_instance counter; c_load 0] init)).
  vm_compute. reflexivity.
Defined.

Lemma distinct_classes_distinct_objects_witness :
  0 <> 1 /\
  o_type <$> objects (final (accessor construct mutable Checked counter init)) !! 0
  = Some counter.
Proof.
  eapply (distinct_classes_distinct_objects construct Checked counter other
            mutable const [] [c_lock] 0 1);
    [vm_compute; reflexivity ..|discriminate].
Defined.

Lemma written_value_is_read_back_witness :
  0 = 0 /\
  load 0
    (final (accessor construct const Checked counter
              (final (run construct Checked
                        [c_store 0 9%Z; c_get_mutable_instance other;
                         c_store 1 5%Z; c_lock]
                        (final (accessor construct mutable Checked counter init))))))
  = Ok (Some 9%Z)
      (final (accessor construct const Checked counter
                (final (run construct Checked
                          [c_store 0 9%Z; c_get_mutable_instance other;
                           c_store 1 5%Z; c_lock]
                          (final (accessor construct mutable Checked counter init)))))).
Proof.
  eapply (written_value_is_read_back construct Checked counter mutable const []
            [c_get_mutable_instance other; c_store 1 5%Z; c_lock] 0 0 9%Z);
    vm_compute; reflexivity.
Defined.

Lemma instance_is_the_singleton_witness :
  exists r,
    instance (final (init_instance construct Checked other (@Default.init Z)))
      !! other = Some r /\
    t (final (init_instance construct Checked other (@Default.init Z)))
      !! other = Some r.
Proof.
  apply (proj2 (instance_is_the_singleton construct Checked other [] const)).
  vm_compute. reflexivity.
Defined.

Lemma eager_touch_is_not_gated_witness :
  exists s',
    init_instance construct Checked counter (with_lock_flag true init) = Ok tt s' /\
    constructed counter s' = true /\ lock_flag s' = true.
Proof.
  exact (proj2 (eager_touch_is_not_gated construct Checked counter true init)
           eq_refl).
Defined.

Lemma teardown_destroys_what_was_constructed_witness :
  constructed other after_teardown = true.
Proof.
  exact (proj1 (teardown_destroys_what_was_constructed construct Checked other
                  [c_init_instance other; c_get_mutable_instance counter;
                   c_store 1 3%Z; c_teardown])
           eq_refl).
Defined.

Lemma gate_is_last_toggle_witness :
  is_locked
    (final (run construct Checked
              [c_lock; c_get_const_instance counter; c_unlock;
               c_get_mutable_instance other; c_lock; c_is_destroyed other] init))
  = Ok true
      (final (run construct Checked
                [c_lock; c_get_const_instance counter; c_unlock;
                 c_get_mutable_instance other; c_lock; c_is_destroyed other] init)).
Proof.
  eapply (gate_is_last_toggle construct Checked
            [c_lock; c_get_const_instance counter; c_unlock;
             c_get_mutable_instance other; c_lock; c_is_destroyed other] init).
  vm_compute. reflexivity.
Defined.

(** The scenario of the spec: three increments through the mutable
    accessor, then a read through the const accessor. *)
Example counter_scenario :
  returned (run construct Checked
              [c_get_mutable_instance counter; c_store 0 1%Z;
               c_get_mutable_instance counter; c_store 0 2%Z;
               c_get_mutable_instance counter; c_store 0 3%Z;
               c_get_const_instance counter; c_load 0] init)
  = Some [a_ref 0; a_void; a_ref 0; a_void; a_ref 0; a_void; a_ref 0; a_val (Some 3%Z)].
Proof. reflexivity. Qed.

(** The scenario of the spec: locked, the mutable accessor stops; unlocked
    again, it returns. *)
Example lock_scenario :
  run construct Checked [c_lock; c_get_mutable_instance counter] init
  = Halt not_locked (with_lock_flag true init) /\
  returned (run construct Checked [c_lock; c_unlock; c_get_mutable_instance counter] init)
  = Some [a_void; a_void; a_ref 0].
Proof. split; reflexivity. Qed.

End DefaultFacts.

(** ** Properties of the USE_UNM_SINGLETON design *)

Module UnmFacts.
Import Unm.

Section WithValues.

Context {V : Type} (construct : tid -> V).

Abbreviation state := (@Unm.state V).
Abbreviation init := (@Unm.init V).
Abbreviation get_instance := (Unm.get_instance construct).
Abbreviation get_mutable_instance := (Unm.get_mutable_instance construct).
Abbreviation get_const_instance := (Unm.get_const_instance construct).
Abbreviation run_call := (Unm.run_call construct).
Abbreviation run := (Unm.run construct).

Lemma mtx_events_snoc (e : event) (l : list event) :
  filter is_mtx_event (l ++ [e]) =
  filter is_mtx_event l ++ (if is_mtx_event e then [e] else []).
Proof. rewrite filter_app. f_equal. now destruct e. Qed.

Lemma quiet_init : quiet init.
Proof.
  split; [reflexivity|]. intros T. split; [discriminate|].
  intros [r Hr]. simpl in Hr. now rewrite lookup_empty in Hr.
Qed.

Lemma initialized_skips_mutex (threadsafe : bool) (T : tid) (s : state) :
  is_initialized T s = true ->
  exists r s', get_instance threadsafe T s = Ok r s' /\
               mtx s' = mtx s /\
               mtx_events s' = mtx_events s /\
               is_initialized T s' = true.
Proof.
  intros I. unfold Unm.get_instance, bind, gets. rewrite I, andb_false_r.
  unfold ret at 1. unfold Unm.static_t, bind, gets.
  destruct (t s !! T) as [r|]; simpl.
  - eexists _, _. split; [reflexivity|]. simpl. repeat split.
    unfold is_initialized. simpl. now rewrite lookup_insert_eq.
  - eexists _, _. split; [reflexivity|]. simpl. repeat split.
    + unfold mtx_events. simpl. rewrite mtx_events_snoc. simpl.
      now rewrite app_nil_r.
    + unfold is_initialized. simpl. now rewrite lookup_insert_eq.
Qed.

Lemma first_call_locks (T : tid) (s : state) :
  is_initialized T s = false -> held T s = false ->
  exists r s', get_instance true T s = Ok r s' /\
               events s' = events s ++ [ev_mtx_lock T] ++
                           (if t s !! T is Some _ then [] else [ev_construct T]) ++
                           [ev_mtx_unlock T] /\
               mtx_events s' = mtx_events s ++ [ev_mtx_lock T; ev_mtx_unlock T] /\
               held T s' = false /\
               is_initialized T s' = true /\
               (forall T', T' <> T -> held T' s' = held T' s) /\
               (forall T', T' <> T -> is_initialized T' s' = is_initialized T' s) /\
               is_Some (t s' !! T) /\
               (forall T', T' <> T -> t s' !! T' = t s !! T').
Proof.
  intros I H. unfold Unm.get_instance, bind, gets. rewrite I. simpl.
  unfold mtx_lock, bind, gets. rewrite H. simpl.
  unfold Unm.static_t, bind, gets. simpl.
  assert (L : forall (m : gmap tid bool) (T' : tid) (x y : bool), T' <> T ->
                default false (<[T:=x]> (<[T:=y]> m) !! T') = default false (m !! T')).
  { intros m T' x y D. now rewrite !lookup_insert_ne by congruence. }
  destruct (t s !! T) as [r|] eqn:E; simpl;
    (eexists _, _; split; [reflexivity|]); simpl;
    unfold mtx_events, held, is_initialized; simpl;
    rewrite !mtx_events_snoc, !lookup_insert_eq; simpl;
    rewrite <- ?app_assoc; simpl;
    (repeat split; eauto;
     try (intros T' D; now rewrite ?L, ?lookup_insert_ne by congruence)).
Qed.

Lemma get_instance_quiet (T : tid) (s : state) :
  quiet s ->
  exists r s', get_instance true T s = Ok r s' /\
               quiet s' /\
               t s' !! T = Some r /\
               (forall T' r', t s !! T' = Some r' -> t s' !! T' = Some r') /\
               events s' = events s ++
                 (if is_initialized T s then []
                  else [ev_mtx_lock T; ev_construct T; ev_mtx_unlock T]).
Proof.
  intros [Qf Qi].
  unfold Unm.get_instance, bind, gets.
  destruct (is_initialized T s) eqn:I; simpl.
  - destruct (proj1 (Qi T) I) as [r Hr].
    unfold Unm.static_t, bind, gets. rewrite Hr. simpl.
    eexists _, _. split; [reflexivity|]. simpl.
    rewrite app_nil_r. split; [|auto].
    split; [exact Qf|].
    intros T'. unfold is_initialized. simpl.
    rewrite lookup_insert. case_decide as D; [|apply Qi].
    subst T'. simpl. split; eauto.
  - assert (Hn : t s !! T = None).
    { destruct (t s !! T) eqn:E; [|reflexivity].
      assert (is_initialized T s = true) by (apply Qi; rewrite E; eauto). congruence. }
    unfold mtx_lock, bind, gets. rewrite (Qf T). simpl.
    unfold Unm.static_t, bind, gets. simpl. rewrite Hn. simpl.
    eexists _, _. split; [reflexivity|]. simpl.
    rewrite <- !app_assoc. simpl.
    split; [|split; [apply lookup_insert_eq|split; [|reflexivity]]].
    + split.
      * intros T'. unfold held. simpl.
        rewrite lookup_insert. case_decide as D; [reflexivity|].
        rewrite lookup_insert_ne by assumption. apply Qf.
      * intros T'. unfold is_initialized. simpl.
        rewrite !lookup_insert. case_decide as D; [|apply Qi].
        simpl. split; eauto.
    + intros T' r' H. rewrite lookup_insert_ne; [exact H|congruence].
Qed.

Lemma get_instance_false_quiet (T : tid) (s : state) :
  quiet s ->
  exists r s', get_instance_false construct T s = Ok r s' /\
               quiet s' /\
               t s' = t s /\
               mtx_events s' = mtx_events s.
Proof.
  intros [Qf Qi]. unfold get_instance_false, static_t_false, bind, gets.
  destruct (t_false s !! T) as [r|]; simpl.
  - eexists _, _. split; [reflexivity|]. repeat split; auto; apply Qi.
  - eexists _, _. split; [reflexivity|]. simpl.
    split; [split; [exact Qf|exact Qi]|]. split; [reflexivity|].
    unfold mtx_events. simpl. rewrite mtx_events_snoc. simpl. apply app_nil_r.
Qed.

Lemma atexit_destroy_quiet (T : tid) (s : state) :
  quiet s ->
  exists s', atexit_destroy T s = Ok tt s' /\
             quiet s' /\
             t s' = t s /\
             events s' = events s.
Proof.
  intros [Qf Qi]. unfold atexit_destroy, bind, gets.
  destruct (t s !! T) as [r|]; simpl.
  - eexists. split; [reflexivity|]. simpl. split; [split; [exact Qf|exact Qi]|auto].
  - eexists. split; [reflexivity|]. split; [split; [exact Qf|exact Qi]|auto].
Qed.

(** Between calls the statics are quiet, and from a quiet state every call
    returns. *)
Lemma run_call_quiet (c : call) (s : state) :
  quiet s ->
  exists a s', run_call c s = Ok a s' /\ quiet s' /\
               (forall T r, t s !! T = Some r -> t s' !! T = Some r).
Proof.
  intros Q. destruct c; unfold Unm.run_call, bind.
  - destruct (get_instance_quiet T s Q) as (r & s' & E & Q' & _ & Ht & _).
    unfold Unm.get_mutable_instance. rewrite E. eauto 6.
  - destruct (get_instance_quiet T s Q) as (r & s' & E & Q' & _ & Ht & _).
    unfold Unm.get_const_instance. rewrite E. eauto 6.
  - destruct (get_instance_false_quiet T s Q) as (r & s' & E & Q' & Ht & _).
    unfold get_mutable_instance_false. rewrite E, <- Ht. eauto 6.
  - destruct (get_instance_false_quiet T s Q) as (r & s' & E & Q' & Ht & _).
    unfold get_const_instance_false. rewrite E, <- Ht. eauto 6.
  - destruct (atexit_destroy_quiet T s Q) as (s' & E & Q' & Ht & _).
    rewrite E, <- Ht. eauto 6.
Qed.

Lemma run_quiet (cs : list call) (s : state) :
  quiet s ->
  exists answers s', run cs s = Ok answers s' /\ quiet s' /\
                     (forall T r, t s !! T = Some r -> t s' !! T = Some r).
Proof.
  revert s. induction cs as [|c cs IH]; intros s Q; cbn [Unm.run].
  - exists [], s. auto.
  - destruct (run_call_quiet c s Q) as (a & s1 & E1 & Q1 & H1).
    destruct (IH s1 Q1) as (rest & s2 & E2 & Q2 & H2).
    unfold bind. rewrite E1, E2. eexists _, _. split; [reflexivity|]. auto.
Qed.

(** C7.  In the thread-safe design both accessors are [get_instance()].
    Along any program, a call either finds [initialized] unset, and then
    takes the mutex, constructs and releases it, or finds it set, and then
    touches no mutex at all.  After the first call [initialized] is set
    for good: whatever the program does next, teardown of [t] included,
    the next call returns the same reference, records no event and leaves
    every mutex as it was.  No call of a program stops: the design has no
    assertion, on a gate or on a destroyed flag, and keeps no such flag. *)
Theorem mutex_only_around_first_construction (T : tid) (cs cs' : list call) :
  let s := final (run cs init) in
  let s1 := final (get_instance true T s) in
  let s2 := final (run cs' s1) in
  let s3 := final (get_instance true T s2) in
  (forall s0, get_mutable_instance true T s0 = get_instance true T s0 /\
              get_const_instance true T s0 = get_instance true T s0) /\
  (exists answers answers', run cs init = Ok answers s /\ run cs' s1 = Ok answers' s2) /\
  (exists r, get_instance true T s = Ok r s1 /\ get_instance true T s2 = Ok r s3) /\
  events s1 = events s ++
    (if is_initialized T s then []
     else [ev_mtx_lock T; ev_construct T; ev_mtx_unlock T]) /\
  is_initialized T s1 = true /\
  is_initialized T s2 = true /\
  events s3 = events s2 /\
  mtx s3 = mtx s2 /\
  (forall threadsafe s0, is_initialized T s0 = true ->
     exists r s', get_instance threadsafe T s0 = Ok r s' /\
                  mtx s' = mtx s0 /\ mtx_events s' = mtx_events s0).
Proof.
  intros s s1 s2 s3.
  destruct (run_quiet cs init quiet_init) as (answers & s' & E & Q & _).
  assert (Hs : s = s') by (unfold s; now rewrite E). rewrite <- Hs in *. clear Hs s'.
  destruct (get_instance_quiet T s Q) as (r & s' & E1 & Q1 & Ht1 & _ & Ev1).
  assert (Hs : s1 = s') by (unfold s1; now rewrite E1). rewrite <- Hs in *. clear Hs s'.
  destruct (run_quiet cs' s1 Q1) as (answers' & s' & E2 & Q2 & Hmono).
  assert (Hs : s2 = s') by (unfold s2; now rewrite E2). rewrite <- Hs in *. clear Hs s'.
  pose proof (Hmono _ _ Ht1) as Ht2.
  assert (I2 : is_initialized T s2 = true) by (apply (q_init _ Q2); eauto).
  destruct (get_instance_quiet T s2 Q2) as (r' & s' & E3 & _ & Ht3 & Hmono3 & Ev3).
  assert (Hs : s3 = s') by (unfold s3; now rewrite E3). rewrite <- Hs in *. clear Hs s'.
  assert (r' = r) by (apply Hmono3 in Ht2; congruence). subst r'.
  rewrite I2, app_nil_r in Ev3.
  destruct (initialized_skips_mutex true T s2 I2) as (r' & s' & E3' & M & _).
  rewrite E3 in E3'. injection E3' as <- <-.
  repeat split; eauto.
  - apply (q_init _ Q1); eauto.
  - intros threadsafe s0 I0.
    destruct (initialized_skips_mutex threadsafe T s0 I0) as (r0 & s' & E0 & M0 & Ev0 & _).
    eauto.
Qed.

(** ** Further properties of the USE_UNM_SINGLETON design *)

Abbreviation object := (@Unm.object V).
Abbreviation get_instance_false := (Unm.get_instance_false construct).
Abbreviation get_mutable_instance_false := (Unm.get_mutable_instance_false construct).
Abbreviation get_const_instance_false := (Unm.get_const_instance_false construct).

(** The steps of a call of the primary template between two calls. *)
Lemma get_instance_steps (T : tid) (s : state) :
  quiet s ->
  exists r s', get_instance true T s = Ok r s' /\
    t s' = <[T := r]> (t s) /\
    t_false s' = t_false s /\
    initialized s' = <[T := true]> (initialized s) /\
    (forall T', held T' s' = false) /\
    ((t s !! T = Some r /\ is_initialized T s = true /\
      objects s' = objects s /\ events s' = events s) \/
     (t s !! T = None /\ is_initialized T s = false /\
      r = length (objects s) /\
      objects s' = objects s ++ [Unm.Object T (construct T) true] /\
      events s' = events s ++ [ev_mtx_lock T; ev_construct T; ev_mtx_unlock T])).
Proof.
  intros [Qf Qi].
  unfold Unm.get_instance, bind, gets.
  destruct (is_initialized T s) eqn:I; simpl.
  - destruct (proj1 (Qi T) I) as [r Hr].
    unfold Unm.static_t, bind, gets. rewrite Hr. simpl.
    eexists _, _. split; [reflexivity|]. simpl.
    split; [symmetry; now apply insert_id|].
    repeat split; auto.
  - assert (Hn : t s !! T = None).
    { destruct (t s !! T) eqn:E; [|reflexivity].
      assert (is_initialized T s = true) by (apply Qi; rewrite E; eauto). congruence. }
    unfold mtx_lock, bind, gets. rewrite (Qf T). simpl.
    unfold Unm.static_t, bind, gets. simpl. rewrite Hn. simpl.
    eexists _, _. split; [reflexivity|]. simpl.
    rewrite <- !app_assoc. simpl.
    repeat split; auto.
    + intros T'. unfold held. simpl.
      rewrite lookup_insert. case_decide as D; [reflexivity|].
      rewrite lookup_insert_ne by assumption. apply Qf.
    + right. repeat split; auto.
Qed.

(** The steps of a call of the specialisation, in any state. *)
Lemma get_instance_false_steps (T : tid) (s : state) :
  exists r s', get_instance_false T s = Ok r s' /\
    mtx s' = mtx s /\
    initialized s' = initialized s /\
    t s' = t s /\
    t_false s' = <[T := r]> (t_false s) /\
    ((t_false s !! T = Some r /\ s' = s) \/
     (t_false s !! T = None /\
      r = length (objects s) /\
      objects s' = objects s ++ [Unm.Object T (construct T) true] /\
      events s' = events s ++ [ev_construct T])).
Proof.
  unfold Unm.get_instance_false, Unm.static_t_false, bind, gets.
  destruct (t_false s !! T) as [r|] eqn:E; simpl.
  - exists r, s. repeat split; auto. symmetry. now apply insert_id.
  - eexists _, _. split; [reflexivity|]. simpl. repeat split; auto.
Qed.

(** X8.  The specialisation [singleton<T, false>] needs no mutex.  In any
    state of the statics, the mutex of [T] held or not, both its accessors
    return, and return the same reference; they leave every mutex, every
    [initialized] flag and the static of the primary template as they
    were, and record no mutex event; and a second call returns the same
    reference and changes nothing at all. *)
Theorem specialisation_needs_no_mutex (T : tid) (s : state) :
  exists r s',
    get_mutable_instance_false T s = Ok r s' /\
    get_const_instance_false T s = Ok r s' /\
    mtx s' = mtx s /\
    initialized s' = initialized s /\
    t s' = t s /\
    mtx_events s' = mtx_events s /\
    get_mutable_instance_false T s' = Ok r s' /\
    get_const_instance_false T s' = Ok r s'.
Proof.
  destruct (get_instance_false_steps T s) as (r & s' & E & M & I & Ht & Hf & Hc).
  exists r, s'.
  assert (E' : get_instance_false T s' = Ok r s').
  { unfold Unm.get_instance_false, Unm.static_t_false, bind, gets.
    rewrite Hf, lookup_insert_eq. reflexivity. }
  repeat split; try assumption.
  destruct Hc as [[_ ->]|(_ & _ & _ & Ev)]; [reflexivity|].
  unfold mtx_events. rewrite Ev, mtx_events_snoc. simpl. apply app_nil_r.
Qed.

(** *** The invariants of a program *)

Lemma unm_types_alter (f : object -> object) (r : ref) (l : list object) :
  (forall o, o_type (f o) = o_type o) ->
  o_type <$> alter f r l = o_type <$> l.
Proof.
  intros Hf. revert r.
  induction l as [|o l IH]; intros [|r]; csimpl; rewrite ?Hf, ?IH; reflexivity.
Qed.

Lemma on_mtx_of_snoc (T : tid) (e : event) (l : list event) :
  filter (on_mtx_of T) (l ++ [e]) =
  filter (on_mtx_of T) l ++ (if on_mtx_of T e then [e] else []).
Proof.
  rewrite filter_app. f_equal. rewrite filter_cons.
  destruct (on_mtx_of T e); reflexivity.
Qed.

Lemma ranked_lt (s : state) (r : ref) (T : tid) :
  o_type <$> objects s !! r = Some T -> r < length (objects s).
Proof.
  destruct (objects s !! r) eqn:E; [|discriminate].
  intros _. now apply lookup_lt_Some in E.
Qed.

Lemma ranked_init : ranked init.
Proof. split; intros *; simpl; now rewrite lookup_empty. Qed.

Lemma traced_init : traced init.
Proof. intros T. reflexivity. Qed.

Lemma get_instance_keeps (T : tid) (s : state) :
  quiet s -> ranked s -> traced s ->
  exists r s', get_instance true T s = Ok r s' /\
    quiet s' /\ ranked s' /\ traced s' /\
    t s' !! T = Some r /\
    (forall T' r', t s !! T' = Some r' -> t s' !! T' = Some r') /\
    t_false s' = t_false s.
Proof.
  intros Q [Rt Rf Ra] Tr.
  destruct (get_instance_steps T s Q) as (r & s' & E & Ht & Hf & Hi & Hh & Hc).
  exists r, s'. split; [exact E|].
  assert (Hmono : forall T' r', t s !! T' = Some r' -> t s' !! T' = Some r').
  { intros T' r' H. rewrite Ht, lookup_insert. case_decide as D; [|exact H].
    subst T'. destruct Hc as [(Hr & _)|(Hn & _)]; congruence. }
  split; [|split; [|split; [|split; [|split]]]].
  - split; [exact Hh|]. intros T'. unfold is_initialized.
    rewrite Hi, Ht, !lookup_insert. case_decide as D; simpl.
    + split; eauto.
    + apply (q_init _ Q).
  - destruct Hc as [(Hr & _ & Ho & _)|(Hn & _ & -> & Ho & _)].
    + rewrite (insert_id _ _ _ Hr) in Ht.
      split; rewrite ?Ht, ?Hf, ?Ho; eauto.
    + split; rewrite ?Ht, ?Hf, ?Ho.
      * intros T' r'. rewrite lookup_insert. case_decide as D.
        -- intros [= <-]. subst T'.
           now rewrite lookup_app_r, Nat.sub_diag by lia.
        -- intros H. rewrite lookup_app_l by eauto using ranked_lt. eauto.
      * intros T' r' H. rewrite lookup_app_l by eauto using ranked_lt. eauto.
      * intros T1 T2 r'. rewrite lookup_insert. case_decide as D; [|eauto].
        intros [= <-] H. apply Rf, ranked_lt in H. lia.
  - intros T'. unfold mtx_events_of, is_initialized. rewrite Hi.
    pose proof (Tr T') as Tr'. unfold mtx_events_of, is_initialized in Tr'.
    destruct Hc as [(_ & I & _ & ->)|(_ & I & _ & _ & ->)].
    + rewrite Tr'. rewrite lookup_insert. case_decide as D; [|reflexivity].
      subst T'. unfold is_initialized in I. now rewrite I.
    + change [ev_mtx_lock T; ev_construct T; ev_mtx_unlock T]
        with ([ev_mtx_lock T] ++ [ev_construct T] ++ [ev_mtx_unlock T]).
      rewrite !app_assoc, !on_mtx_of_snoc, Tr'. simpl.
      rewrite lookup_insert. case_decide as D.
      * subst T'. unfold is_initialized in I. rewrite I.
        now rewrite bool_decide_eq_true_2.
      * rewrite bool_decide_eq_false_2 by exact D. simpl.
        now rewrite !app_nil_r.
  - rewrite Ht. apply lookup_insert_eq.
  - exact Hmono.
  - exact Hf.
Qed.

Lemma get_instance_false_keeps (T : tid) (s : state) :
  quiet s -> ranked s -> traced s ->
  exists r s', get_instance_false T s = Ok r s' /\
    quiet s' /\ ranked s' /\ traced s' /\
    t_false s' !! T = Some r /\
    (forall T' r', t_false s !! T' = Some r' -> t_false s' !! T' = Some r') /\
    t s' = t s.
Proof.
  intros Q [Rt Rf Ra] Tr.
  destruct (get_instance_false_steps T s) as (r & s' & E & Hm & Hi & Ht & Hf & Hc).
  exists r, s'. split; [exact E|].
  destruct Hc as [(Hr & ->)|(Hn & -> & Ho & He)].
  - repeat split; auto; try apply Q.
  - split; [|split; [|split; [|split; [|split]]]].
    + split.
      * intros T'. unfold held. rewrite Hm. apply (q_free _ Q).
      * intros T'. unfold is_initialized. rewrite Hi, Ht. apply (q_init _ Q).
    + split; rewrite ?Ht, ?Hf, ?Ho.
      * intros T' r' H. rewrite lookup_app_l by eauto using ranked_lt. eauto.
      * intros T' r'. rewrite lookup_insert. case_decide as D.
        -- intros [= <-]. subst T'.
           now rewrite lookup_app_r, Nat.sub_diag by lia.
        -- intros H. rewrite lookup_app_l by eauto using ranked_lt. eauto.
      * intros T1 T2 r' H. rewrite lookup_insert. case_decide as D; [|eauto].
        intros [= <-]. apply Rt, ranked_lt in H. lia.
    + intros T'. unfold mtx_events_of, is_initialized. rewrite Hi, He.
      rewrite on_mtx_of_snoc. simpl. rewrite app_nil_r. apply Tr.
    + rewrite Hf. apply lookup_insert_eq.
    + intros T' r' H. rewrite Hf, lookup_insert. case_decide as D; [|exact H].
      subst T'. congruence.
    + exact Ht.
Qed.

Lemma atexit_destroy_keeps (T : tid) (s : state) :
  quiet s -> ranked s -> traced s ->
  exists s', atexit_destroy T s = Ok tt s' /\
    quiet s' /\ ranked s' /\ traced s' /\ t s' = t s /\ t_false s' = t_false s.
Proof.
  intros [Qf Qi] [Rt Rf Ra] Tr. unfold atexit_destroy, bind, gets.
  destruct (t s !! T) as [r|]; simpl.
  - eexists. split; [reflexivity|]. simpl.
    split; [split; [exact Qf|exact Qi]|].
    split; [|split; [exact Tr|auto]].
    split; simpl; [| |exact Ra].
    + intros T' r' H. rewrite <- list_lookup_fmap, unm_types_alter by reflexivity.
      rewrite list_lookup_fmap. eauto.
    + intros T' r' H. rewrite <- list_lookup_fmap, unm_types_alter by reflexivity.
      rewrite list_lookup_fmap. eauto.
  - exists s. split; [reflexivity|]. split; [split; [exact Qf|exact Qi]|].
    split; [split; [exact Rt|exact Rf|exact Ra]|]. auto.
Qed.

Lemma run_call_keeps (c : call) (s : state) :
  quiet s -> ranked s -> traced s ->
  exists a s', run_call c s = Ok a s' /\
    quiet s' /\ ranked s' /\ traced s' /\
    (forall T r, t s !! T = Some r -> t s' !! T = Some r) /\
    (forall T r, t_false s !! T = Some r -> t_false s' !! T = Some r).
Proof.
  intros Q R Tr. destruct c; unfold Unm.run_call, bind.
  - destruct (get_instance_keeps T s Q R Tr) as (r & s' & E & Q' & R' & Tr' & _ & M & F).
    unfold Unm.get_mutable_instance. rewrite E, <- F. eauto 10.
  - destruct (get_instance_keeps T s Q R Tr) as (r & s' & E & Q' & R' & Tr' & _ & M & F).
    unfold Unm.get_const_instance. rewrite E, <- F. eauto 10.
  - destruct (get_instance_false_keeps T s Q R Tr)
      as (r & s' & E & Q' & R' & Tr' & _ & M & F).
    unfold Unm.get_mutable_instance_false. rewrite E, <- F. eauto 10.
  - destruct (get_instance_false_keeps T s Q R Tr)
      as (r & s' & E & Q' & R' & Tr' & _ & M & F).
    unfold Unm.get_const_instance_false. rewrite E, <- F. eauto 10.
  - destruct (atexit_destroy_keeps T s Q R Tr) as (s' & E & Q' & R' & Tr' & F1 & F2).
    rewrite E, <- F1, <- F2. eauto 10.
Qed.

Lemma run_keeps (cs : list call) (s : state) :
  quiet s -> ranked s -> traced s ->
  exists answers s', run cs s = Ok answers s' /\
    quiet s' /\ ranked s' /\ traced s' /\
    (forall T r, t s !! T = Some r -> t s' !! T = Some r) /\
    (forall T r, t_false s !! T = Some r -> t_false s' !! T = Some r).
Proof.
  revert s. induction cs as [|c cs IH]; intros s Q R Tr; cbn [Unm.run].
  - exists [], s. auto 10.
  - destruct (run_call_keeps c s Q R Tr) as (a & s1 & E1 & Q1 & R1 & Tr1 & M1 & F1).
    destruct (IH s1 Q1 R1 Tr1) as (rest & s2 & E2 & Q2 & R2 & Tr2 & M2 & F2).
    unfold bind. rewrite E1, E2. eexists _, _. split; [reflexivity|]. auto 10.
Qed.

(** X9.  [singleton<T, true>] and [singleton<T', false>] are two singletons,
    also for one and the same class: along any program, in either order,
    the reference the primary template returns and the reference the
    specialisation returns denote different objects. *)
Theorem primary_and_specialisation_apart (T T' : tid) (cs cs' : list call)
    (r r' : ref) (s1 s2 s3 : state) (answers : list (option ref)) :
  let s := final (run cs init) in
  (get_instance true T s = Ok r s1 /\ run cs' s1 = Ok answers s2 /\
   get_instance_false T' s2 = Ok r' s3) \/
  (get_instance_false T' s = Ok r' s1 /\ run cs' s1 = Ok answers s2 /\
   get_instance true T s2 = Ok r s3) ->
  r <> r'.
Proof.
  intros s H.
  destruct (run_keeps cs init quiet_init ranked_init traced_init)
    as (a0 & s0 & E0 & Q & R & Tr & _ & _).
  assert (Hs : s = s0) by (unfold s; now rewrite E0). rewrite <- Hs in *. clear Hs s0.
  assert (G : ranked s3 /\ t s3 !! T = Some r /\ t_false s3 !! T' = Some r').
  { destruct H as [(H1 & Hr & H2)|(H1 & Hr & H2)].
    - destruct (get_instance_keeps T s Q R Tr)
        as (x & y & E1 & Q1 & R1 & Tr1 & B1 & _ & _).
      rewrite H1 in E1. injection E1 as <- <-.
      destruct (run_keeps cs' s1 Q1 R1 Tr1) as (x & y & E2 & Q2 & R2 & Tr2 & M2 & _).
      rewrite Hr in E2. injection E2 as <- <-.
      destruct (get_instance_false_keeps T' s2 Q2 R2 Tr2)
        as (x & y & E3 & _ & R3 & _ & B3 & _ & F3).
      rewrite H2 in E3. injection E3 as <- <-.
      rewrite F3. auto.
    - destruct (get_instance_false_keeps T' s Q R Tr)
        as (x & y & E1 & Q1 & R1 & Tr1 & B1 & _ & _).
      rewrite H1 in E1. injection E1 as <- <-.
      destruct (run_keeps cs' s1 Q1 R1 Tr1) as (x & y & E2 & Q2 & R2 & Tr2 & _ & M2).
      rewrite Hr in E2. injection E2 as <- <-.
      destruct (get_instance_keeps T s2 Q2 R2 Tr2)
        as (x & y & E3 & _ & R3 & _ & B3 & _ & F3).
      rewrite H2 in E3. injection E3 as <- <-.
      rewrite F3. auto. }
  destruct G as (R3 & B & B').
  intros <-. exact (rk_apart _ R3 _ _ _ B B').
Qed.

(** X10.  Over a whole program the mutex of a class is taken at most once.
    In the state a program ends in, the events on the mutex of [T] are one
    lock followed by one unlock if [T] is initialized and none otherwise,
    and no mutex is left held, whatever the program called and however
    often. *)
Theorem mutex_taken_at_most_once (T : tid) (cs : list call) :
  let s := final (run cs init) in
  mtx_events_of T s =
    (if is_initialized T s then [ev_mtx_lock T; ev_mtx_unlock T] else []) /\
  (is_initialized T s = true <-> is_Some (t s !! T)) /\
  (forall T', held T' s = false).
Proof.
  intros s.
  destruct (run_keeps cs init quiet_init ranked_init traced_init)
    as (a0 & s0 & E0 & Q & R & Tr & _ & _).
  assert (Hs : s = s0) by (unfold s; now rewrite E0). rewrite <- Hs in *. clear Hs s0.
  split; [apply Tr|]. split; [apply (q_init _ Q)|apply (q_free _ Q)].
Qed.

End WithValues.

Lemma mutex_only_around_first_construction_witness :
  exists r s',
    Unm.get_instance Counter.construct true Counter.counter
      (final (Unm.get_instance Counter.construct true Counter.counter Unm.init))
    = Ok r s' /\
    mtx s' = mtx (final (Unm.get_instance Counter.construct true Counter.counter Unm.init)) /\
    mtx_events s'
    = mtx_events (final (Unm.get_instance Counter.construct true Counter.counter Unm.init)).
Proof.
  refine (proj2 (proj2 (proj2 (proj2 (proj2 (proj2 (proj2 (proj2
            (mutex_only_around_first_construction Counter.construct Counter.counter [] []))))))))
            true _ _).
  reflexivity.
Defined.

Lemma primary_and_specialisation_apart_witness : 0 <> 1.
Proof.
  eapply (primary_and_specialisation_apart Counter.construct
            Counter.counter Counter.counter [] [c_atexit_destroy Counter.other] 0 1).
  left. split; [|split]; vm_compute; reflexivity.
Defined.

Example first_call_takes_the_mutex_once :
  events (final (Unm.run Counter.construct
                   [c_get_const_instance Counter.counter;
                    c_get_mutable_instance Counter.counter;
                    c_atexit_destroy Counter.counter;
                    c_get_const_instance Counter.counter]
                   Unm.init))
  = [ev_mtx_lock Counter.counter; ev_construct Counter.counter;
     ev_mtx_unlock Counter.counter].
Proof. reflexivity. Qed.

End UnmFacts.
